(** * monk: note-name codec, note-list encoder and Reaper project codec

    A shallow embedding of [monk/midi.py] and [monk/rpp.py] and the
    properties of the two codecs.

    Python values are represented as follows.
    - [int] is [Z]; [float] is a binary64 number, the primitive [float];
      a field annotated [float] may hold an [int] at run time (JSON input),
      so such fields have type [number].
    - [str] is [string]; a character is a code point below 256.
    - A raised exception is the [Raise] case of [result].
    - The file system and the source of random bits behind [uuid.uuid4]
      are the explicit [world] threaded through the [io] computations. *)

From Stdlib Require Import ZArith List String Ascii Bool Lia Sorted Permutation.
From Stdlib Require Import Floats DecimalString DecimalZ DecimalFacts.
Import ListNotations.

Local Open Scope string_scope.
Local Open Scope Z_scope.

(* ===================================================================== *)
(** * Exceptions and results                                              *)
(* ===================================================================== *)

Inductive exception : Type :=
| ValueError (msg : string)
| IndexError (msg : string)
| OverflowError (msg : string)
| ZeroDivisionError (msg : string)
| FileNotFoundError (msg : string)
| StructError (msg : string).

Inductive result (A : Type) : Type :=
| Ok (a : A)
| Raise (e : exception).
Arguments Ok {A} a.
Arguments Raise {A} e.

Definition bind {A B : Type} (r : result A) (k : A -> result B) : result B :=
  match r with
  | Ok a => k a
  | Raise e => Raise e
  end.

Declare Scope result_scope.
Delimit Scope result_scope with result.
Notation "x <- c1 ;; c2" := (bind c1 (fun x => c2))
  (at level 61, c1 at next level, right associativity) : result_scope.
Local Open Scope result_scope.

(** A loop whose body may raise: [for x in l: acc = body(acc, x)]. *)
Fixpoint for_each {A S : Type} (body : S -> A -> result S) (l : list A) (acc : S)
  : result S :=
  match l with
  | [] => Ok acc
  | x :: l' => acc' <- body acc x ;; for_each body l' acc'
  end.

(** The double quote, the line feed and the carriage return; [q] and [nl]
    are the strings of one such character. *)
Definition dquote : ascii := "034"%char.
Definition LF : ascii := "010"%char.
Definition CR : ascii := "013"%char.
Definition q : string := String dquote EmptyString.
Definition nl : string := String LF EmptyString.

(* ===================================================================== *)
(** * Python built-ins                                                    *)
(* ===================================================================== *)

Module Py.

(** ** Characters and strings *)

Definition code (c : ascii) : Z := Z.of_N (N_of_ascii c).


(** [str.isspace] on a code point below 256. *)
Definition isspace (c : ascii) : bool :=
  let n := code c in
  ((9 <=? n) && (n <=? 13)) || ((28 <=? n) && (n <=? 32))
  || (n =? 133) || (n =? 160).

Definition isdigit (c : ascii) : bool :=
  let n := code c in (48 <=? n) && (n <=? 57).

Definition upper_char (c : ascii) : ascii :=
  let n := code c in
  if (97 <=? n) && (n <=? 122) then ascii_of_N (Z.to_N (n - 32)) else c.

Definition lower_char (c : ascii) : ascii :=
  let n := code c in
  if (65 <=? n) && (n <=? 90) then ascii_of_N (Z.to_N (n + 32)) else c.

Fixpoint map_str (f : ascii -> ascii) (s : string) : string :=
  match s with
  | EmptyString => EmptyString
  | String c s' => String (f c) (map_str f s')
  end.

(** [s.upper()] and [s.lower()] (on the letters a-z and A-Z). *)
Definition upper (s : string) : string := map_str upper_char s.
Definition lower (s : string) : string := map_str lower_char s.

(** [len(s)] *)
Definition len (s : string) : Z := Z.of_nat (String.length s).

(** [s[:n]] and [s[n:]] for [n >= 0]. *)
Fixpoint take (n : nat) (s : string) : string :=
  match n, s with
  | S k, String c s' => String c (take k s')
  | _, _ => EmptyString
  end.

Fixpoint drop (n : nat) (s : string) : string :=
  match n, s with
  | S k, String _ s' => drop k s'
  | _, _ => s
  end.

(** [s.startswith(p)] *)
Definition startswith (p s : string) : bool := String.prefix p s.

(** [p in s]: [p] occurs in [s] as a substring. *)
Fixpoint contains (p s : string) : bool :=
  String.prefix p s ||
  match s with
  | EmptyString => false
  | String _ s' => contains p s'
  end.

(** [s.replace(old, new)] for a non-empty [old]: the occurrences of [old],
    found from the left and not overlapping, are replaced.  [skip] counts the
    characters of the current occurrence still to be passed over. *)
Fixpoint replace_from (old new : string) (skip : nat) (s : string) : string :=
  match s with
  | EmptyString => EmptyString
  | String c s' =>
      match skip with
      | S k => replace_from old new k s'
      | O =>
          if String.prefix old s
          then new ++ replace_from old new (String.length old - 1) s'
          else String c (replace_from old new 0 s')
      end
  end.

Definition replace (old new s : string) : string := replace_from old new 0 s.

(** [s.lstrip()], [s.rstrip()], [s.strip()] *)
Fixpoint lstrip (s : string) : string :=
  match s with
  | EmptyString => EmptyString
  | String c s' => if isspace c then lstrip s' else s
  end.

Fixpoint rstrip (s : string) : string :=
  match s with
  | EmptyString => EmptyString
  | String c s' =>
      match rstrip s' with
      | EmptyString => if isspace c then EmptyString else String c EmptyString
      | r => String c r
      end
  end.

Definition strip (s : string) : string := rstrip (lstrip s).

(** [s.split()]: the maximal runs of characters that are not white space. *)
Fixpoint split (s : string) : list string :=
  match s with
  | EmptyString => []
  | String c s' =>
      if isspace c then split s'
      else
        match s' with
        | EmptyString => [String c EmptyString]
        | String c' _ =>
            if isspace c' then String c EmptyString :: split s'
            else
              match split s' with
              | w :: ws => String c w :: ws
              | [] => [String c EmptyString]
              end
        end
  end.

(** ** Integers and text *)

(** [str(n)] for an [int]. *)
Definition str_of_int (n : Z) : string :=
  NilZero.string_of_int (Z.to_int n).

(** Underscores in a numeric literal handed to [int] or [float]: each one
    stands between two digits; they are dropped. *)
Definition next_isdigit (s : string) : bool :=
  match s with
  | String c _ => isdigit c
  | EmptyString => false
  end.

Fixpoint drop_underscores (prev_digit : bool) (s : string) : option string :=
  match s with
  | EmptyString => Some EmptyString
  | String c s' =>
      if Ascii.eqb c "_"
      then if prev_digit && next_isdigit s'
           then drop_underscores false s'
           else None
      else option_map (String c) (drop_underscores (isdigit c) s')
  end.

Fixpoint all_digits (s : string) : bool :=
  match s with
  | EmptyString => true
  | String c s' => isdigit c && all_digits s'
  end.

(** The value of a string of decimal digits. *)
Definition digits_value (s : string) : Z :=
  match NilEmpty.uint_of_string s with
  | Some d => Z.of_uint d
  | None => 0
  end.

Definition split_sign (s : string) : bool * string :=
  match s with
  | String "-" r => (true, r)
  | String "+" r => (false, r)
  | _ => (false, s)
  end.

(** [repr(s)] of a string, for the text of error messages: quoted with the
    single quote unless the string holds one and no double quote. *)
Definition hex_digit (n : Z) : ascii :=
  ascii_of_N (Z.to_N (if n <? 10 then 48 + n else 87 + n)).

Definition printable (c : ascii) : bool :=
  let n := code c in
  ((32 <=? n) && (n <=? 126)) || ((161 <=? n) && negb (n =? 173)).

Fixpoint repr_body (quote : ascii) (s : string) : string :=
  match s with
  | EmptyString => EmptyString
  | String c s' =>
      (if Ascii.eqb c quote || Ascii.eqb c "\" then String "\" (String c EmptyString)
       else if Ascii.eqb c LF then "\n"
       else if Ascii.eqb c CR then "\r"
       else if Ascii.eqb c "009" then "\t"
       else if printable c then String c EmptyString
       else String "\" (String "x" (String (hex_digit (code c / 16))
                                      (String (hex_digit (code c mod 16)) EmptyString))))
      ++ repr_body quote s'
  end.

Definition repr_str (s : string) : string :=
  let quote : ascii :=
    if contains "'" s && negb (contains q s) then dquote else "'"%char in
  String quote (repr_body quote s ++ String quote EmptyString).

(** [int(s)] for a string, base 10. *)
Definition int_of_str (s : string) : result Z :=
  let bad := Raise (ValueError ("invalid literal for int() with base 10: " ++ repr_str s)) in
  let (neg, body) := split_sign (strip s) in
  match drop_underscores false body with
  | Some ds =>
      if all_digits ds && negb (String.eqb ds EmptyString)
      then Ok (if neg then - digits_value ds else digits_value ds)
      else bad
  | None => bad
  end.

(** [l.index(x)] on a list of strings. *)
Fixpoint index_from (x : string) (l : list string) (i : Z) : result Z :=
  match l with
  | [] => Raise (ValueError (repr_str x ++ " is not in list"))
  | y :: l' => if String.eqb y x then Ok i else index_from x l' (i + 1)
  end.

Definition index (x : string) (l : list string) : result Z := index_from x l 0.

(** [l[i]] with Python's negative indices. *)
Definition getitem {A : Type} (l : list A) (i : Z) : result A :=
  let n := Z.of_nat (List.length l) in
  let j := if i <? 0 then i + n else i in
  if (0 <=? j) && (j <? n)
  then match nth_error l (Z.to_nat j) with
       | Some x => Ok x
       | None => Raise (IndexError "list index out of range")
       end
  else Raise (IndexError "list index out of range").

(** ** Numbers *)

(** A value that is an [int] or a [float]. *)
Inductive number : Type :=
| PyInt (z : Z)
| PyFloat (f : float).

(** The binary64 number nearest to [m * 10^k], ties to even. *)
Definition float_of_decimal (neg : bool) (m : positive) (k : Z) : spec_float :=
  if 0 <=? k
  then binary_round prec emax neg (Z.to_pos (Zpos m * 10 ^ k)) 0
  else
    let d := 10 ^ (- k) in
    let s := Z.max 0 (Zdigits2 d + 55 - Zdigits2 (Zpos m)) in
    let (quo, r) := Z.div_eucl (Z.shiftl (Zpos m) s) d in
    binary_round_aux prec emax neg quo (- s) (new_location d r).

(** [float(n)] for an [int]: the nearest binary64 number, or [OverflowError]. *)
Definition float_of_int (n : Z) : result float :=
  match binary_normalize prec emax n 0 false with
  | S754_infinity _ => Raise (OverflowError "int too large to convert to float")
  | x => Ok (SF2Prim x)
  end.

(** [int(x)] for a [float]: truncation toward zero. *)
Definition int_of_float (x : float) : result Z :=
  match Prim2SF x with
  | S754_nan => Raise (ValueError "cannot convert float NaN to integer")
  | S754_infinity _ => Raise (OverflowError "cannot convert float infinity to integer")
  | S754_zero _ => Ok 0
  | S754_finite s m e =>
      let a := if 0 <=? e then Zpos m * 2 ^ e else Zpos m / 2 ^ (- e) in
      Ok (if s then - a else a)
  end.

(** [round(x)] for a [float]: the nearest integer, ties to even. *)
Definition round_float (x : float) : result Z :=
  match Prim2SF x with
  | S754_nan => Raise (ValueError "cannot convert float NaN to integer")
  | S754_infinity _ => Raise (OverflowError "cannot convert float infinity to integer")
  | S754_zero _ => Ok 0
  | S754_finite s m e =>
      let a :=
        if 0 <=? e then Zpos m * 2 ^ e
        else
          let d := 2 ^ (- e) in
          let (quo, r) := Z.div_eucl (Zpos m) d in
          match 2 * r ?= d with
          | Lt => quo
          | Gt => quo + 1
          | Eq => if Z.even quo then quo else quo + 1
          end in
      Ok (if s then - a else a)
  end.

Definition float_binop (op : float -> float -> float) (a b : number) : result float :=
  x <- match a with PyInt z => float_of_int z | PyFloat f => Ok f end ;;
  y <- match b with PyInt z => float_of_int z | PyFloat f => Ok f end ;;
  Ok (op x y).

(** [a * b], [a + b], [a - b] *)
Definition mul (a b : number) : result number :=
  match a, b with
  | PyInt x, PyInt y => Ok (PyInt (x * y))
  | _, _ => f <- float_binop PrimFloat.mul a b ;; Ok (PyFloat f)
  end.

Definition add (a b : number) : result number :=
  match a, b with
  | PyInt x, PyInt y => Ok (PyInt (x + y))
  | _, _ => f <- float_binop PrimFloat.add a b ;; Ok (PyFloat f)
  end.

Definition sub (a b : number) : result number :=
  match a, b with
  | PyInt x, PyInt y => Ok (PyInt (x - y))
  | _, _ => f <- float_binop PrimFloat.sub a b ;; Ok (PyFloat f)
  end.

(** [int(x)] and [round(x)] for a number. *)
Definition int (x : number) : result Z :=
  match x with
  | PyInt z => Ok z
  | PyFloat f => int_of_float f
  end.

Definition round (x : number) : result Z :=
  match x with
  | PyInt z => Ok z
  | PyFloat f => round_float f
  end.

(** ** [float(s)] for a string *)

Fixpoint span_digits (s : string) : string * string :=
  match s with
  | EmptyString => (EmptyString, EmptyString)
  | String c s' =>
      if isdigit c
      then let (d, r) := span_digits s' in (String c d, r)
      else (EmptyString, s)
  end.

(** The exponent part: nothing, or [e] or [E], an optional sign, digits. *)
Definition parse_exponent (s : string) : option Z :=
  match s with
  | EmptyString => Some 0
  | String c r =>
      if Ascii.eqb c "e" || Ascii.eqb c "E"
      then
        let (neg, ds) := split_sign r in
        if all_digits ds && negb (String.eqb ds EmptyString)
        then Some (if neg then - digits_value ds else digits_value ds)
        else None
      else None
  end.

(** The mantissa digits and the power of ten of a decimal literal. *)
Definition parse_decimal (s : string) : option (Z * Z) :=
  let (ip, r1) := span_digits s in
  let (fp, r2) :=
    match r1 with
    | String "." r => span_digits r
    | _ => (EmptyString, r1)
    end in
  if String.eqb (ip ++ fp) EmptyString then None
  else
    match parse_exponent r2 with
    | Some ex => Some (digits_value (ip ++ fp), ex - len fp)
    | None => None
    end.

Definition float_of_str (s : string) : result float :=
  let bad := Raise (ValueError ("could not convert string to float: " ++ repr_str s)) in
  match drop_underscores false (strip s) with
  | None => bad
  | Some u =>
      let (neg, body) := split_sign u in
      let l := lower body in
      if String.eqb l "inf" || String.eqb l "infinity"
      then Ok (if neg then neg_infinity else infinity)
      else if String.eqb l "nan" then Ok nan
      else
        match parse_decimal body with
        | Some (Zpos m, k) => Ok (SF2Prim (float_of_decimal neg m k))
        | Some (_, _) => Ok (if neg then neg_zero else zero)
        | None => bad
        end
  end.

(** ** [repr(x)] for a float: the shortest digits that read back as [x] *)

(** [x < 10^k] for [x = num / den]. *)
Definition lt_pow10 (num den k : Z) : bool :=
  if 0 <=? k then num <? 10 ^ k * den else num * 10 ^ (- k) <? den.

(** The [k] with [10^(k-1) <= x < 10^k], searched upward from [k]. *)
Fixpoint find_decpt (fuel : nat) (num den k : Z) : Z :=
  match fuel with
  | O => k
  | S fuel' => if lt_pow10 num den k then k else find_decpt fuel' num den (k + 1)
  end.

Definition reads_back (m : positive) (e : Z) (c k10 : Z) : bool :=
  match c with
  | Zpos p =>
      match float_of_decimal false p k10 with
      | S754_finite _ m' e' => Pos.eqb m m' && Z.eqb e e'
      | _ => false
      end
  | _ => false
  end.

(** The first [n], counted up from [n], for which one of the two [n]-digit
    decimals around [x = num / den] reads back as [x]; of two that do, the
    nearer one. The result is the integer [c] with [x ~ c * 10^(k-n)]. *)
Fixpoint shortest (fuel : nat) (m : positive) (e num den k n : Z) : Z * Z :=
  let (a, b) := if 0 <=? n - k then (num * 10 ^ (n - k), den)
                else (num, den * 10 ^ (k - n)) in
  let (lo, r) := Z.div_eucl a b in
  let hi := if r =? 0 then lo else lo + 1 in
  let nearest := match 2 * r ?= b with
                 | Lt => lo
                 | Gt => hi
                 | Eq => if Z.even lo then lo else hi
                 end in
  let ok_lo := reads_back m e lo (k - n) in
  let ok_hi := reads_back m e hi (k - n) in
  if ok_lo && ok_hi then (nearest, n)
  else if ok_lo then (lo, n)
  else if ok_hi then (hi, n)
  else match fuel with
       | O => (nearest, n)
       | S fuel' => shortest fuel' m e num den k (n + 1)
       end.

Fixpoint zeros (n : nat) : string :=
  match n with
  | O => EmptyString
  | S k => String "0" (zeros k)
  end.

Fixpoint rstrip_zeros (s : string) : string :=
  match s with
  | EmptyString => EmptyString
  | String c s' =>
      match rstrip_zeros s' with
      | EmptyString => if Ascii.eqb c "0" then EmptyString else String c EmptyString
      | r => String c r
      end
  end.

(** The digits of [x = m * 2^e] and the position of the decimal point. *)
Definition short_digits (m : positive) (e : Z) : string * Z :=
  let (num, den) := if 0 <=? e then (Zpos m * 2 ^ e, 1) else (Zpos m, 2 ^ (- e)) in
  let k := find_decpt 700 num den (-340) in
  let (c, n) := shortest 16 m e num den k 1 in
  let ds := str_of_int c in
  (rstrip_zeros ds, k - n + len ds).

Definition format_short (digits : string) (decpt : Z) : string :=
  let nd := len digits in
  if (decpt <=? -4) || (16 <? decpt)
  then
    let ex := decpt - 1 in
    take 1 digits
    ++ (if 1 <? nd then "." ++ drop 1 digits else EmptyString)
    ++ "e" ++ (if ex <? 0 then "-" else "+")
    ++ (if Z.abs ex <? 10 then "0" else EmptyString) ++ str_of_int (Z.abs ex)
  else if decpt <=? 0
  then "0." ++ zeros (Z.to_nat (- decpt)) ++ digits
  else if nd <=? decpt
  then digits ++ zeros (Z.to_nat (decpt - nd)) ++ ".0"
  else take (Z.to_nat decpt) digits ++ "." ++ drop (Z.to_nat decpt) digits.

Definition repr_float (x : float) : string :=
  match Prim2SF x with
  | S754_nan => "nan"
  | S754_infinity s => if s then "-inf" else "inf"
  | S754_zero s => if s then "-0.0" else "0.0"
  | S754_finite s m e =>
      let (ds, decpt) := short_digits m e in
      (if s then "-" else EmptyString) ++ format_short ds decpt
  end.

(** [str(x)], as an f-string formats a number. *)
Definition str (x : number) : string :=
  match x with
  | PyInt z => str_of_int z
  | PyFloat f => repr_float f
  end.

(** [s[i]] for a string, with Python's negative indices: the string of
    the one character at [i]. *)
Definition char_at (s : string) (i : Z) : result string :=
  let n := len s in
  let j := if i <? 0 then i + n else i in
  if (0 <=? j) && (j <? n)
  then Ok (take 1 (drop (Z.to_nat j) s))
  else Raise (IndexError "string index out of range").

End Py.

(* ===================================================================== *)
(** * The world: files and random bits                                    *)
(* ===================================================================== *)

(** One message of a MIDI track, as the [mido] library holds it: a channel
    message of some type ([note_on], [note_off]) or one of the two meta
    messages the encoder emits. [time] is the delta time in ticks. *)
Inductive msg : Type :=
| ChannelMessage (type : string) (note velocity time : Z)
| SetTempo (tempo time : Z)
| EndOfTrack (time : Z).

(** What has been written of a standard MIDI file: the header chunk, then
    one chunk per track. *)
Inductive chunk : Type :=
| Header (format ntracks ticks_per_beat : Z)
| TrackChunk (messages : list msg).

Inductive file : Type :=
| TextFile (content : string)
| MidiData (chunks : list chunk).

(** [files] maps a path to its content, the latest entry first;
    [entropy] is the sequence of 128-bit draws of the system's random
    source and [drawn] counts the draws made so far. *)
Record world : Type := {
  files : list (string * file);
  entropy : nat -> Z;
  drawn : nat
}.

Fixpoint lookup {A : Type} (k : string) (l : list (string * A)) : option A :=
  match l with
  | [] => None
  | (k', v) :: l' => if String.eqb k' k then Some v else lookup k l'
  end.

Definition read_file (w : world) (path : string) : option file :=
  lookup path (files w).

Definition write_file (w : world) (path : string) (f : file) : world :=
  {| files := (path, f)
              :: filter (fun kv => negb (String.eqb (fst kv) path)) (files w);
     entropy := entropy w; drawn := drawn w |}.

(** A computation that reads and changes the world, and may raise; what it
    did before raising stays done. *)
Definition io (A : Type) : Type := world -> result A * world.

Definition ret {A : Type} (a : A) : io A := fun w => (Ok a, w).

Definition throw {A : Type} (e : exception) : io A := fun w => (Raise e, w).

Definition lift {A : Type} (r : result A) : io A := fun w => (r, w).

Definition io_bind {A B : Type} (c : io A) (k : A -> io B) : io B :=
  fun w =>
    match c w with
    | (Ok a, w') => k a w'
    | (Raise e, w') => (Raise e, w')
    end.

Declare Scope io_scope.
Delimit Scope io_scope with io.
Notation "x <-- c1 ;; c2" := (io_bind c1 (fun x => c2))
  (at level 61, c1 at next level, right associativity) : io_scope.
Notation "c1 ;;; c2" := (io_bind c1 (fun _ => c2))
  (at level 61, right associativity) : io_scope.
Local Open Scope io_scope.

(** [for x in l: acc = body(acc, x)] in [io]. *)
Fixpoint io_for_each {A S : Type} (body : S -> A -> io S) (l : list A) (acc : S)
  : io S :=
  match l with
  | [] => ret acc
  | x :: l' => acc' <-- body acc x ;; io_for_each body l' acc'
  end.

(* ===================================================================== *)
(** * The mido library, as far as the encoder relies on it                *)
(* ===================================================================== *)

Module Mido.

Definition data_byte (v : Z) : result Z :=
  if (0 <=? v) && (v <=? 127) then Ok v
  else Raise (ValueError "data byte must be in range 0..127").

(** [Message(type, note=, velocity=, time=)] *)
Definition Message (type : string) (note velocity time : Z) : result msg :=
  n <- data_byte note ;;
  v <- data_byte velocity ;;
  Ok (ChannelMessage type n v time).

(** [MetaMessage("set_tempo", tempo=, time=)] *)
Definition MetaMessage_set_tempo (tempo time : Z) : result msg :=
  if (0 <=? tempo) && (tempo <=? 16777215) then Ok (SetTempo tempo time)
  else Raise (ValueError "tempo must be in range 0..16777215").

(** [bpm2tempo(bpm)]: microseconds per beat, [int(round(60 * 1e6 / bpm))]. *)
Definition bpm2tempo (bpm : Z) : result Z :=
  if bpm =? 0 then Raise (ZeroDivisionError "float division by zero")
  else b <- Py.float_of_int bpm ;; Py.round_float (60000000 / b)%float.

Record MidiFile : Type := {
  ticks_per_beat : Z;
  tracks : list (list msg)
}.

Definition msg_time (m : msg) : Z :=
  match m with
  | ChannelMessage _ _ _ t => t
  | SetTempo _ t => t
  | EndOfTrack t => t
  end.

Definition int16 (v : Z) : bool := (-32768 <=? v) && (v <=? 32767).

(** Writing one track: every delta time has to be non-negative. *)
Definition write_track (path : string) (done : list chunk) (track : list msg)
  : io (list chunk) :=
  if forallb (fun m => 0 <=? msg_time m) track
  then fun w => let cs := (done ++ [TrackChunk track])%list in
                (Ok cs, write_file w path (MidiData cs))
  else throw (ValueError "message time must be non-negative in MIDI file").

(** [mid.save(path)]: the file is created, the header chunk is written
    (three 16-bit fields), then the tracks one by one. *)
Definition save (mid : MidiFile) (path : string) : io unit :=
  (fun w => (Ok tt, write_file w path (MidiData []))) ;;;
  (if int16 (Z.of_nat (List.length (tracks mid))) && int16 (ticks_per_beat mid)
   then
     let h := [Header 1 (Z.of_nat (List.length (tracks mid))) (ticks_per_beat mid)] in
     (fun w => (Ok tt, write_file w path (MidiData h))) ;;;
     io_for_each (write_track path) (tracks mid) h ;;;
     ret tt
   else throw (StructError "'h' format requires -32768 <= number <= 32767")).

End Mido.

(* ===================================================================== *)
(** * midi.py                                                             *)
(* ===================================================================== *)

Module Midi.

Definition TICKS_PER_BEAT : Z := 480.

Definition NOTE_NAMES : list string :=
  ["C"; "C#"; "D"; "D#"; "E"; "F"; "F#"; "G"; "G#"; "A"; "A#"; "B"].

Definition GM_DRUMS : list (string * Z) :=
  [("kick", 36); ("snare", 38); ("rimshot", 37); ("clap", 39);
   ("hihat_closed", 42); ("hihat_open", 46); ("hihat_pedal", 44);
   ("tom_low", 45); ("tom_mid", 47); ("tom_high", 50);
   ("crash", 49); ("ride", 51); ("ride_bell", 53)].

Record Note : Type := {
  pitch : Z;
  start_beat : Py.number;
  duration_beats : Py.number;
  velocity : Z
}.

(** [Note.start_ticks]: [int(self.start_beat * ticks_per_beat)] *)
Definition start_ticks (self : Note) (ticks_per_beat : Z) : result Z :=
  p <- Py.mul (start_beat self) (Py.PyInt ticks_per_beat) ;; Py.int p.

(** [Note.duration_ticks]: [int(self.duration_beats * ticks_per_beat)] *)
Definition duration_ticks (self : Note) (ticks_per_beat : Z) : result Z :=
  p <- Py.mul (duration_beats self) (Py.PyInt ticks_per_beat) ;; Py.int p.

Definition invalid_note_name {A : Type} (name : string) : result A :=
  Raise (ValueError ("Invalid note name: " ++ name)).

Definition note_name_to_midi (name : string) : result Z :=
  let name := Py.strip name in
  (* Handle flats by converting to sharps *)
  let name := Py.replace "b" "" name in
  let name := if Py.contains "b" name then name (* pass *) else name in
  (* Parse note and octave *)
  if Py.len name <? 2 then invalid_note_name name
  else
    let '(note_part, octave_part) :=
      if String.eqb (Py.take 1 (Py.drop 1 name)) "#"
      then (Py.take 2 name, Py.drop 2 name)
      else (Py.take 1 name, Py.drop 1 name) in
    (* Handle flats *)
    parts <-
      (if Py.contains "b" octave_part
       then
         let octave_part := Py.replace "b" "" octave_part in
         note_idx <- Py.index (Py.upper note_part) NOTE_NAMES ;;
         let note_idx := (note_idx - 1) mod 12 in
         note_part <- Py.getitem NOTE_NAMES note_idx ;;
         Ok (note_part, octave_part)
       else Ok (note_part, octave_part)) ;;
    let '(note_part, octave_part) := parts in
    match (note_idx <- Py.index (Py.upper note_part) NOTE_NAMES ;;
           octave <- Py.int_of_str octave_part ;;
           Ok (note_idx, octave)) with
    | Raise (ValueError _) | Raise (IndexError _) => invalid_note_name name
    | Raise e => Raise e
    | Ok (note_idx, octave) =>
        let midi_num := (octave + 1) * 12 + note_idx in
        if negb ((0 <=? midi_num) && (midi_num <=? 127))
        then Raise (ValueError ("Note " ++ name ++ " is out of MIDI range (0-127)"))
        else Ok midi_num
    end.

Definition midi_to_note_name (midi_num : Z) : result string :=
  let octave := midi_num / 12 - 1 in
  let note_idx := midi_num mod 12 in
  n <- Py.getitem NOTE_NAMES note_idx ;;
  Ok (n ++ Py.str_of_int octave).

(** ** The note-list encoder *)

(** An event of the encoder: [(absolute tick, message type, pitch, velocity)]. *)
Definition event : Type := Z * string * Z * Z.

Definition event_tick (e : event) : Z := fst (fst (fst e)).
Definition event_type (e : event) : string := snd (fst (fst e)).

(** [events.sort(key=...)]: Python's sort is stable, and the stable sorted
    arrangement of a list is unique; insertion from the right builds it. *)
Fixpoint insert_by {A K : Type} (le : K -> K -> bool) (key : A -> K)
  (x : A) (l : list A) : list A :=
  match l with
  | [] => [x]
  | y :: l' => if le (key x) (key y) then x :: l else y :: insert_by le key x l'
  end.

Definition sort_by {A K : Type} (le : K -> K -> bool) (key : A -> K)
  (l : list A) : list A :=
  fold_right (insert_by le key) [] l.

(** The sort key [(e[0], e[1] == "note_on")] and the order of such pairs
    ([False < True]). *)
Definition sort_key (e : event) : Z * bool :=
  (event_tick e, String.eqb (event_type e) "note_on").

Definition key_le (a b : Z * bool) : bool :=
  (fst a <? fst b) || ((fst a =? fst b) && implb (snd a) (snd b)).

(** The first loop of [create_midi_file]: two events per note. *)
Definition note_events (notes : list Note) (ticks_per_beat : Z)
  : result (list event) :=
  for_each
    (fun (events : list event) (note : Note) =>
       start <- start_ticks note ticks_per_beat ;;
       d <- duration_ticks note ticks_per_beat ;;
       let end_ := start + d in
       let events := (events ++ [(start, "note_on", pitch note, velocity note)])%list in
       let events := (events ++ [(end_, "note_off", pitch note, 0)])%list in
       Ok events)
    notes [].

(** The second loop: absolute times to delta times. *)
Definition delta_messages (events : list event) (track : list msg)
  : result (Z * list msg) :=
  for_each
    (fun (st : Z * list msg) (e : event) =>
       let '(current_time, track) := st in
       let '(abs_time, msg_type, pitch, velocity) := e in
       let delta := abs_time - current_time in
       m <- Mido.Message msg_type pitch velocity delta ;;
       Ok (abs_time, (track ++ [m])%list))
    events (0, track).

(** The track [create_midi_file] builds, before it is saved. *)
Definition build_track (notes : list Note) (tempo_bpm ticks_per_beat : Z)
  : result (list msg) :=
  (* Set tempo *)
  tempo <- Mido.bpm2tempo tempo_bpm ;;
  m <- Mido.MetaMessage_set_tempo tempo 0 ;;
  let track := [m] in
  (* Convert notes to events with absolute times *)
  events <- note_events notes ticks_per_beat ;;
  (* Sort by time *)
  let events := sort_by key_le sort_key events in
  (* Convert to delta times *)
  st <- delta_messages events track ;;
  (* End of track *)
  Ok (snd st ++ [EndOfTrack 0])%list.

Definition create_midi_file (output_path : string) (notes : list Note)
  (tempo_bpm ticks_per_beat : Z) : io unit :=
  track <-- lift (build_track notes tempo_bpm ticks_per_beat) ;;
  let mid := {| Mido.ticks_per_beat := ticks_per_beat; Mido.tracks := [track] |} in
  Mido.save mid output_path.

(** ** Drum patterns *)

(** [list(d.keys())] formatted in an f-string. *)
Fixpoint join (sep : string) (l : list string) : string :=
  match l with
  | [] => EmptyString
  | [x] => x
  | x :: l' => x ++ sep ++ join sep l'
  end.

Definition repr_list (l : list string) : string :=
  "[" ++ join ", " (map Py.repr_str l) ++ "]".

(** [range(n)] *)
Definition range (n : Z) : list Z := map Z.of_nat (seq 0 (Z.to_nat n)).

(** The loops of [create_drum_pattern] over the bars and, within a bar,
    over the beats of one drum. *)
Definition drum_hits (pitch velocity bars : Z) (beats : list Py.number)
  (notes : list Note) : result (list Note) :=
  for_each
    (fun (notes : list Note) (bar : Z) =>
       let bar_offset := bar * 4 in (* 4 beats per bar *)
       for_each
         (fun (notes : list Note) (beat : Py.number) =>
            start <- Py.add (Py.PyInt bar_offset) beat ;;
            Ok (notes ++ [{| pitch := pitch;
                             start_beat := start;
                             (* 0.1, short hit *)
                             duration_beats := Py.PyFloat 0x1.999999999999ap-4;
                             velocity := velocity |}])%list)
         beats notes)
    (range bars) notes.

(** The body of the loop over the items of [pattern]. *)
Definition drum_item (bars velocity : Z) (notes : list Note)
  (item : string * list Py.number) : result (list Note) :=
  let '(drum_name, beats) := item in
  match lookup drum_name GM_DRUMS with
  | None =>
      Raise (ValueError ("Unknown drum: " ++ drum_name ++ ". Valid: "
                         ++ repr_list (map fst GM_DRUMS)))
  | Some pitch => drum_hits pitch velocity bars beats notes
  end.

Definition drum_notes (pattern : list (string * list Py.number)) (bars velocity : Z)
  : result (list Note) :=
  for_each (drum_item bars velocity) pattern [].

Definition create_drum_pattern (output_path : string)
  (pattern : list (string * list Py.number)) (bars tempo_bpm velocity : Z) : io unit :=
  notes <-- lift (drum_notes pattern bars velocity) ;;
  create_midi_file output_path notes tempo_bpm TICKS_PER_BEAT.

(** ** Chords *)

(** Chord quality intervals (semitones from root). *)
Definition CHORD_INTERVALS : list (string * list Z) :=
  [ ("", [0; 4; 7]);
    ("maj", [0; 4; 7]);
    ("m", [0; 3; 7]);
    ("min", [0; 3; 7]);
    ("7", [0; 4; 7; 10]);
    ("maj7", [0; 4; 7; 11]);
    ("m7", [0; 3; 7; 10]);
    ("min7", [0; 3; 7; 10]);
    ("dim", [0; 3; 6]);
    ("dim7", [0; 3; 6; 9]);
    ("aug", [0; 4; 8]);
    ("sus2", [0; 2; 7]);
    ("sus4", [0; 5; 7]);
    ("add9", [0; 4; 7; 14]);
    ("9", [0; 4; 7; 10; 14]) ].

(** The root and the quality of a (stripped) chord name: the root takes
    the second character when that is the sharp or the flat sign. *)
Definition chord_parts (chord_name : string) : result (string * string) :=
  if (2 <=? Py.len chord_name)
     && (let c := Py.take 1 (Py.drop 1 chord_name) in
         String.eqb c "#" || String.eqb c "b")
  then Ok (Py.take 2 chord_name, Py.drop 2 chord_name)
  else root <- Py.char_at chord_name 0 ;;
       Ok (root, Py.drop 1 chord_name).

Definition parse_chord (chord_name : string) (octave : Z) : result (list Z) :=
  let chord_name := Py.strip chord_name in
  (* Extract root note *)
  parts <- chord_parts chord_name ;;
  let '(root, quality) := parts in
  (* Get root MIDI number *)
  root_midi <- note_name_to_midi (root ++ Py.str_of_int octave) ;;
  (* Get chord intervals *)
  match lookup quality CHORD_INTERVALS with
  | None =>
      Raise (ValueError ("Unknown chord quality: " ++ quality ++ " in " ++ chord_name))
  | Some intervals => Ok (map (fun interval => root_midi + interval) intervals)
  end.

(** [enumerate(l)] *)
Definition enumerate {A : Type} (l : list A) : list (Z * A) :=
  combine (map Z.of_nat (seq 0 (List.length l))) l.

(** The body of the loop of [create_chord_progression] over the chords. *)
Definition chord_item (beats_per_chord : Py.number) (velocity octave : Z)
  (notes : list Note) (item : Z * string) : result (list Note) :=
  let '(i, chord_name) := item in
  chord_notes <- parse_chord chord_name octave ;;
  start_beat <- Py.mul (Py.PyInt i) beats_per_chord ;;
  for_each
    (fun (notes : list Note) (pitch : Z) =>
       (* slight gap: beats_per_chord - 0.1 *)
       d <- Py.sub beats_per_chord (Py.PyFloat 0x1.999999999999ap-4) ;;
       Ok (notes ++ [{| pitch := pitch;
                        start_beat := start_beat;
                        duration_beats := d;
                        velocity := velocity |}])%list)
    chord_notes notes.

Definition chord_notes (chords : list string) (beats_per_chord : Py.number)
  (velocity octave : Z) : result (list Note) :=
  for_each (chord_item beats_per_chord velocity octave) (enumerate chords) [].

Definition create_chord_progression (output_path : string) (chords : list string)
  (beats_per_chord : Py.number) (tempo_bpm velocity octave : Z) : io unit :=
  notes <-- lift (chord_notes chords beats_per_chord velocity octave) ;;
  create_midi_file output_path notes tempo_bpm TICKS_PER_BEAT.

End Midi.

(* ===================================================================== *)
(** * Library calls of rpp.py: uuid, re, pathlib, text files              *)
(* ===================================================================== *)

Module Lib.

(** [n] hexadecimal digits of [v], the most significant first. *)
Fixpoint hex (n : nat) (v : Z) : string :=
  match n with
  | O => EmptyString
  | S k => hex k (v / 16) ++ String (Py.hex_digit (v mod 16)) EmptyString
  end.

(** The version and variant bits of a random (version 4) UUID. *)
Definition uuid4_bits (r : Z) : Z :=
  let v := r mod 2 ^ 128 in
  let v := Z.land v (Z.lnot (Z.shiftl 49152 48)) in
  let v := Z.lor v (Z.shiftl 32768 48) in
  let v := Z.land v (Z.lnot (Z.shiftl 61440 64)) in
  Z.lor v (Z.shiftl 4 76).

(** [str(u)] for a UUID: 8-4-4-4-12 hexadecimal digits. *)
Definition uuid_str (v : Z) : string :=
  let h := hex 32 v in
  Py.take 8 h ++ "-" ++ Py.take 4 (Py.drop 8 h) ++ "-" ++ Py.take 4 (Py.drop 12 h)
  ++ "-" ++ Py.take 4 (Py.drop 16 h) ++ "-" ++ Py.drop 20 h.

(** The identifier the next call of [uuid4] returns in world [w]. *)
Definition next_uuid (w : world) : string :=
  uuid_str (uuid4_bits (entropy w (drawn w))).

Definition draw (w : world) : world :=
  {| files := files w; entropy := entropy w; drawn := S (drawn w) |}.

(** [str(uuid.uuid4())] *)
Definition uuid4 : io string := fun w => (Ok (next_uuid w), draw w).

(** [s = a + c + rest] with no [c] in [a]: the pair [(a, rest)]. *)
Fixpoint until_char (c : ascii) (s : string) : option (string * string) :=
  match s with
  | EmptyString => None
  | String x s' =>
      if Ascii.eqb x c then Some (EmptyString, s')
      else match until_char c s' with
           | Some (a, rest) => Some (String x a, rest)
           | None => None
           end
  end.

(** [re.search] for a double quote, any characters but the double quote,
    and a double quote again: group 1 (what stands between the quotes) of
    the leftmost match. *)
Definition search_quoted (s : string) : option string :=
  match until_char dquote s with
  | Some (_, r) =>
      match until_char dquote r with
      | Some (a, _) => Some a
      | None => None
      end
  | None => None
  end.

(** [re.search] for an opening brace, one or more characters other than
    the closing brace, and a closing brace: group 1 of the leftmost match. *)
Fixpoint search_braced (s : string) : option string :=
  match s with
  | EmptyString => None
  | String c s' =>
      if Ascii.eqb c "{"
      then match until_char "}" s' with
           | Some (String x a, _) => Some (String x a)
           | _ => search_braced s'
           end
      else search_braced s'
  end.

(** The part of [s] after, and before, the last [c]. *)
Fixpoint after_last (c : ascii) (s : string) : option string :=
  match s with
  | EmptyString => None
  | String x s' =>
      match after_last c s' with
      | Some r => Some r
      | None => if Ascii.eqb x c then Some s' else None
      end
  end.

Fixpoint before_last (c : ascii) (s : string) : option string :=
  match s with
  | EmptyString => None
  | String x s' =>
      match before_last c s' with
      | Some r => Some (String x r)
      | None => if Ascii.eqb x c then Some EmptyString else None
      end
  end.

(** [p.stem] for a path given as its text [str(p)]: the final component
    without its suffix. *)
Definition stem (p : string) : string :=
  let name := match after_last "/" p with Some n => n | None => p end in
  match before_last "." name, after_last "." name with
  | Some (String x a), Some (String y b) => String x a
  | _, _ => name
  end.

(** Reading a text file: [\r\n] and [\r] become [\n]. *)
Fixpoint universal_newlines (s : string) : string :=
  match s with
  | EmptyString => EmptyString
  | String c s' =>
      if Ascii.eqb c CR
      then String LF
             match s' with
             | String c' s'' =>
                 if Ascii.eqb c' LF then universal_newlines s''
                 else universal_newlines s'
             | EmptyString => EmptyString
             end
      else String c (universal_newlines s')
  end.

(** The lines of a text, each with its line feed. *)
Fixpoint lines_of (s : string) : list string :=
  match s with
  | EmptyString => []
  | String c s' =>
      if Ascii.eqb c LF then String c EmptyString :: lines_of s'
      else match lines_of s' with
           | l :: ls => String c l :: ls
           | [] => [String c EmptyString]
           end
  end.

(** [open(path).readlines()] *)
Definition readlines (path : string) : io (list string) :=
  fun w =>
    match read_file w path with
    | Some (TextFile s) => (Ok (lines_of (universal_newlines s)), w)
    | Some (MidiData _) =>
        (Raise (ValueError "'utf-8' codec can't decode byte 0xff: invalid start byte"), w)
    | None =>
        (Raise (FileNotFoundError ("[Errno 2] No such file or directory: "
                                   ++ Py.repr_str path)), w)
    end.

(** [open(path, 'w').writelines(lines)] *)
Definition writelines (path : string) (lines : list string) : io unit :=
  fun w => (Ok tt, write_file w path (TextFile (String.concat EmptyString lines))).

(** [path.exists()] *)
Definition exists_ (path : string) : io bool :=
  fun w => (Ok (match read_file w path with Some _ => true | None => false end), w).

End Lib.

(* ===================================================================== *)
(** * rpp.py                                                              *)
(* ===================================================================== *)

Module Rpp.

(** A MIDI item in a track; [path] is the text of the [Path]. *)
Record MidiItem : Type := {
  path : string;
  position : Py.number;
  length : Py.number
}.

Record Track : Type := {
  name : string;
  index : Z;
  guid : string;
  midi_items : list MidiItem
}.

(** The project; [project_path] is the attribute [path]. *)
Record ReaperProject : Type := {
  project_path : option string;
  tempo : Py.number;
  time_signature : Z * Z;
  sample_rate : Z;
  render_file : string;
  tracks : list Track;
  _raw_lines : list string
}.

Definition set_path (self : ReaperProject) (p : option string) : ReaperProject :=
  {| project_path := p; tempo := tempo self; time_signature := time_signature self;
     sample_rate := sample_rate self; render_file := render_file self;
     tracks := tracks self; _raw_lines := _raw_lines self |}.

Definition set_raw_lines (self : ReaperProject) (l : list string) : ReaperProject :=
  {| project_path := project_path self; tempo := tempo self;
     time_signature := time_signature self; sample_rate := sample_rate self;
     render_file := render_file self; tracks := tracks self; _raw_lines := l |}.

Definition set_tracks (self : ReaperProject) (l : list Track) : ReaperProject :=
  {| project_path := project_path self; tempo := tempo self;
     time_signature := time_signature self; sample_rate := sample_rate self;
     render_file := render_file self; tracks := l; _raw_lines := _raw_lines self |}.

Definition set_sample_rate (self : ReaperProject) (v : Z) : ReaperProject :=
  {| project_path := project_path self; tempo := tempo self;
     time_signature := time_signature self; sample_rate := v;
     render_file := render_file self; tracks := tracks self;
     _raw_lines := _raw_lines self |}.

(** [set_tempo]: unconditional assignment. *)
Definition set_tempo (self : ReaperProject) (bpm : Py.number) : ReaperProject :=
  {| project_path := project_path self; tempo := bpm;
     time_signature := time_signature self; sample_rate := sample_rate self;
     render_file := render_file self; tracks := tracks self;
     _raw_lines := _raw_lines self |}.

(** [set_render_file]: unconditional assignment. *)
Definition set_render_file (self : ReaperProject) (filename : string) : ReaperProject :=
  {| project_path := project_path self; tempo := tempo self;
     time_signature := time_signature self; sample_rate := sample_rate self;
     render_file := filename; tracks := tracks self;
     _raw_lines := _raw_lines self |}.

Definition set_name (t : Track) (n : string) : Track :=
  {| name := n; index := index t; guid := guid t; midi_items := midi_items t |}.

(** ** Loading *)

(** The body of the first loop of [_load], for one line. *)
Definition load_metadata_line (self : ReaperProject) (line : string)
  : result ReaperProject :=
  let line := Py.strip line in
  if Py.startswith "TEMPO " line then
    let parts := Py.split line in
    if 2 <=? Z.of_nat (List.length parts) then
      p <- Py.getitem parts 1 ;;
      v <- Py.float_of_str p ;;
      Ok (set_tempo self (Py.PyFloat v))
    else Ok self
  else if Py.startswith "SAMPLERATE " line then
    let parts := Py.split line in
    if 2 <=? Z.of_nat (List.length parts) then
      p <- Py.getitem parts 1 ;;
      v <- Py.int_of_str p ;;
      Ok (set_sample_rate self v)
    else Ok self
  else if Py.startswith "RENDER_FILE " line then
    match Lib.search_quoted line with
    | Some g => Ok (set_render_file self g)
    | None => Ok self
    end
  else Ok self.

(** The variables of the second loop of [_load]. *)
Record scan : Type := {
  scanned : list Track;
  in_track : bool;
  current_track : option Track;
  track_idx : Z
}.

(** The body of the second loop of [_load], for one line. *)
Definition load_track_line (st : scan) (line : string) : io scan :=
  let stripped := Py.strip line in
  if Py.startswith "<TRACK" stripped then
    g <-- match Lib.search_braced stripped with
          | Some g => ret g
          | None => Lib.uuid4
          end ;;
    ret {| scanned := scanned st;
           in_track := true;
           current_track :=
             Some {| name := "Track " ++ Py.str_of_int (track_idx st + 1);
                     index := track_idx st; guid := g; midi_items := [] |};
           track_idx := track_idx st + 1 |}
  else if in_track st && Py.startswith "NAME " stripped then
    match Lib.search_quoted stripped, current_track st with
    | Some g, Some t =>
        ret {| scanned := scanned st; in_track := in_track st;
               current_track := Some (set_name t g); track_idx := track_idx st |}
    | _, _ => ret st
    end
  else if in_track st && String.eqb stripped ">" then
    ret {| scanned := match current_track st with
                      | Some t => (scanned st ++ [t])%list
                      | None => scanned st
                      end;
           in_track := false;
           current_track := None;
           track_idx := track_idx st |}
  else ret st.

Definition _load (self : ReaperProject) (p : string) : io ReaperProject :=
  let self := set_path self (Some p) in
  lines <-- Lib.readlines p ;;
  let self := set_raw_lines self lines in
  (* Parse tempo *)
  self <-- lift (for_each load_metadata_line lines self) ;;
  (* Parse tracks *)
  let self := set_tracks self [] in
  st <-- io_for_each load_track_line lines
           {| scanned := []; in_track := false; current_track := None; track_idx := 0 |} ;;
  ret (set_tracks self (scanned st)).

(** [ReaperProject(path)] *)
Definition __init__ (p : option string) : io ReaperProject :=
  let self := {| project_path := p; tempo := Py.PyFloat 120;
                 time_signature := (4, 4); sample_rate := 44100;
                 render_file := "render"; tracks := []; _raw_lines := [] |} in
  match p with
  | Some f =>
      e <-- Lib.exists_ f ;;
      if (e : bool) then _load self f else ret self
  | None => ret self
  end.

(** [ReaperProject.load(path)] *)
Definition load (p : string) : io ReaperProject := __init__ (Some p).

(** ** Saving *)

(** The lines of [_generate_reasynth_fx] around the identifier [fxid]. *)
Definition reasynth_fx_lines (fxid : string) : list string :=
  [ "    <FXCHAIN" ++ nl;
    "      SHOW 0" ++ nl;
    "      LASTSEL 0" ++ nl;
    "      DOCKED 0" ++ nl;
    "      BYPASS 0 0 0" ++ nl;
    "      <VST " ++ q ++ "VSTi: ReaSynth (Cockos)" ++ q ++ " reasynth.vst.dylib 0 "
      ++ q ++ q ++ " 1919251321<5653546872736E7265617379>" ++ nl;
    "        eXNlcu5e7f4CAAAAAQAAAAAAAAACAAAAAAAAAAIAAAABAAAAAAAAAAIAAAAAAAAAPAAAAAAAAAAAABA" ++ nl;
    "        AAAAAAAAAAAAQAAAAAAAAAAAAAAAAAAAAAAAAAAAAAAAAAAAAAAAAAAAAAAAAAAAAAAAAAAAAAAAAAA" ++ nl;
    "        AAAAAAAAAAAAAAAAAAAAAAAAAAAAAAAAAAAAAAAAAAAAAAAAAAAA" ++ nl;
    "        AAAQAAAA" ++ nl;
    "      >" ++ nl;
    "      FLOATPOS 0 0 0 0" ++ nl;
    "      FXID {" ++ fxid ++ "}" ++ nl;
    "      WAK 0 0" ++ nl;
    "    >" ++ nl ].

Definition _generate_reasynth_fx : io (list string) :=
  fxid <-- Lib.uuid4 ;;
  ret (reasynth_fx_lines fxid).

(** The lines of [_generate_midi_item] around its two identifiers. *)
Definition midi_item_lines (item : MidiItem) (item_guid g : string) : list string :=
  let midi_path := path item in
  [ "    <ITEM" ++ nl;
    "      POSITION " ++ Py.str (position item) ++ nl;
    "      SNAPOFFS 0" ++ nl;
    "      LENGTH " ++ Py.str (length item) ++ nl;
    "      LOOP 1" ++ nl;
    "      ALLTAKES 0" ++ nl;
    "      FADEIN 1 0.01 0 1 0 0 0" ++ nl;
    "      FADEOUT 1 0.01 0 1 0 0 0" ++ nl;
    "      MUTE 0 0" ++ nl;
    "      SEL 0" ++ nl;
    "      IGUID {" ++ item_guid ++ "}" ++ nl;
    "      IID 1" ++ nl;
    "      NAME " ++ q ++ Lib.stem (path item) ++ q ++ nl;
    "      VOLPAN 1 0 1 -1" ++ nl;
    "      PLAYRATE 1 1 0 -1 0 0.0025" ++ nl;
    "      CHANMODE 0" ++ nl;
    "      GUID {" ++ g ++ "}" ++ nl;
    "      <SOURCE MIDI" ++ nl;
    "        HASDATA 1 960 QN" ++ nl;
    "        FILE " ++ q ++ midi_path ++ q ++ nl;
    "      >" ++ nl;
    "    >" ++ nl ].

Definition _generate_midi_item (item : MidiItem) : io (list string) :=
  item_guid <-- Lib.uuid4 ;;
  g <-- Lib.uuid4 ;;
  ret (midi_item_lines item item_guid g).

(** The first lines of a track block. *)
Definition track_head_lines (track : Track) : list string :=
  let guid := "{" ++ guid track ++ "}" in
  [ "  <TRACK " ++ guid ++ nl;
    "    NAME " ++ q ++ name track ++ q ++ nl;
    "    PEAKCOL 16576" ++ nl;
    "    BEAT -1" ++ nl;
    "    AUTOMODE 0" ++ nl;
    "    VOLPAN 1 0 -1 -1 1" ++ nl;
    "    REC 0 0 1 0 0 0 0 0" ++ nl;
    "    VU 2" ++ nl;
    "    NCHAN 2" ++ nl;
    "    FX 1" ++ nl;
    "    TRACKID " ++ guid ++ nl;
    "    PERF 0" ++ nl;
    "    MIDIOUT -1" ++ nl;
    "    MAINSEND 1 0" ++ nl ].

(** [lines.extend(f(x))] for each [x] of [l]. *)
Definition extend_each {A : Type} (f : A -> io (list string)) (l : list A)
  (lines : list string) : io (list string) :=
  io_for_each (fun lines x => more <-- f x ;; ret (lines ++ more)%list) l lines.

Definition _generate_track (track : Track) (add_synth : bool) : io (list string) :=
  let lines := track_head_lines track in
  (* Add ReaSynth if track has MIDI items *)
  lines <-- (if add_synth && negb (Nat.eqb (List.length (midi_items track)) 0)
             then fx <-- _generate_reasynth_fx ;; ret (lines ++ fx)%list
             else ret lines) ;;
  (* Add MIDI items *)
  lines <-- extend_each _generate_midi_item (midi_items track) lines ;;
  ret (lines ++ [("  >" ++ nl)%string])%list.

(** The fixed lines of a project and its three fields. *)
Definition project_head_lines (self : ReaperProject) : list string :=
  [ "<REAPER_PROJECT 0.1 " ++ q ++ "7.0" ++ q ++ " 1704067200" ++ nl;
    "  RIPPLE 0" ++ nl;
    "  GROUPOVERRIDE 0 0 0" ++ nl;
    "  AUTOXFADE 1" ++ nl;
    "  SAMPLERATE " ++ Py.str_of_int (sample_rate self) ++ " 0 0" ++ nl;
    "  TEMPO " ++ Py.str (tempo self) ++ " 4 4" ++ nl;
    "  PLAYRATE 1 0 0.25 4" ++ nl;
    "  MASTERTRACKHEIGHT 0 0" ++ nl;
    "  MASTERTRACKVIEW 0 0.6667 0.5 0.5 -1 -1 -1 0 0 0 -1 -1 0" ++ nl;
    "  MASTERHWOUT 0 0 1 0 0 0 0 -1" ++ nl;
    "  MASTER_NCH 2 2" ++ nl;
    "  MASTER_VOLUME 1 0 -1 -1 1" ++ nl;
    "  MASTER_FX 1" ++ nl;
    "  MASTER_SEL 0" ++ nl;
    "  RENDER_FILE " ++ q ++ render_file self ++ q ++ nl;
    "  RENDER_PATTERN " ++ q ++ q ++ nl;
    "  RENDER_FMT 0 2 0" ++ nl;
    "  RENDER_1X 0" ++ nl;
    "  RENDER_RANGE 1 0 0 18 1000" ++ nl;
    "  RENDER_RESAMPLE 3 0 1" ++ nl;
    "  RENDER_ADDTOPROJ 0" ++ nl;
    "  RENDER_STEMS 0" ++ nl;
    "  RENDER_DITHER 0" ++ nl ].

Definition _generate_new_project (self : ReaperProject) : io (list string) :=
  let lines := project_head_lines self in
  (* Add tracks *)
  lines <-- extend_each (fun track => _generate_track track true) (tracks self) lines ;;
  (* Close the project *)
  ret (lines ++ [(">" ++ nl)%string])%list.

Definition _rebuild_content (self : ReaperProject) : io (list string) :=
  _generate_new_project self.

(** [save(path)]; [None] stands for no argument. *)
Definition save (self : ReaperProject) (p : option string) : io ReaperProject :=
  let save_path :=
    match p with
    | Some f => if String.eqb f EmptyString then project_path self else Some f
    | None => project_path self
    end in
  match save_path with
  | None => throw (ValueError "No path specified for saving")
  | Some f =>
      (* Rebuild the file content *)
      lines <-- _rebuild_content self ;;
      Lib.writelines f lines ;;;
      ret (set_path self (Some f))
  end.

(** ** Mutation *)

Definition add_track (self : ReaperProject) (n : string) : io (ReaperProject * Track) :=
  g <-- Lib.uuid4 ;;
  let track := {| name := n; index := Z.of_nat (List.length (tracks self));
                  guid := g; midi_items := [] |} in
  ret (set_tracks self (tracks self ++ [track])%list, track).

(** [l[i].midi_items.append(item)], [i] already in range. *)
Fixpoint append_item (l : list Track) (i : nat) (item : MidiItem) : list Track :=
  match l, i with
  | [], _ => []
  | t :: l', O =>
      {| name := name t; index := index t; guid := guid t;
         midi_items := (midi_items t ++ [item])%list |} :: l'
  | t :: l', S k => t :: append_item l' k item
  end.

Section DurationReader.

(** [mido.MidiFile(str(midi_path)).length]: the duration, in seconds, of
    the MIDI file at a path. *)
Variable midi_length : string -> io Py.number.

(** [add_midi_item]; [len_ = None] stands for no [length] argument. *)
Definition add_midi_item (self : ReaperProject) (track_index : Z)
  (midi_path : string) (pos : Py.number) (len_ : option Py.number)
  : io ReaperProject :=
  let n := Z.of_nat (List.length (tracks self)) in
  if n <=? track_index
  then throw (IndexError ("Track index " ++ Py.str_of_int track_index ++ " out of range"))
  else
    (* Calculate length from MIDI file if not specified *)
    l <-- match len_ with
          | None => midi_length midi_path
          | Some l => ret l
          end ;;
    let item := {| path := midi_path; position := pos; length := l |} in
    _ <-- lift (Py.getitem (tracks self) track_index) ;;
    let i := if track_index <? 0 then track_index + n else track_index in
    ret (set_tracks self (append_item (tracks self) (Z.to_nat i) item)).

End DurationReader.

End Rpp.

(* ===================================================================== *)
(** * llm.py: the track a tool places its item on                         *)
(* ===================================================================== *)

Module Llm.



End Llm.

(* ===================================================================== *)
(** * Note names                                                          *)
(* ===================================================================== *)

Section NoteNames.

Import Midi.

(** After [name.replace("b", "")] no [b] is left, so the branch of
    [note_name_to_midi] that lowers the pitch class is never taken. *)
Lemma replace_b_no_b (s : string) :
  Py.contains "b" (Py.replace "b" "" s) = false.
Proof.
  unfold Py.replace.
  induction s as [|c s IH]; [reflexivity|].
  cbn [Py.replace_from String.prefix].
  destruct (Ascii.ascii_dec "b" c) as [E|N].
  - destruct s; cbn [String.length Nat.sub append]; exact IH.
  - cbn [Py.contains String.prefix]. rewrite IH.
    destruct (Ascii.ascii_dec "b" c); [contradiction|reflexivity].
Qed.

(** C5. On flat names the converter does not lower the pitch class: the
    flat sign is erased before the name is read, so "Bb3" is read as "B3"
    (59, not 58) and "Db4" as "D4" (62, not 61); the lowercase "c4" is 60. *)
Theorem note_name_to_midi_flat_examples :
  note_name_to_midi "Bb3" = Ok 59 /\
  note_name_to_midi "Db4" = Ok 62 /\
  note_name_to_midi "c4" = Ok 60 /\
  note_name_to_midi "B3" = Ok 59 /\
  note_name_to_midi "A#3" = Ok 58.
Proof. repeat split; vm_compute; reflexivity. Qed.

(** The check behind C6, for one pitch. *)
Definition name_roundtrip (p : Z) : bool :=
  match midi_to_note_name p with
  | Ok n =>
      negb (Py.contains "b" n) &&
      match note_name_to_midi n with
      | Ok p' => p' =? p
      | Raise _ => false
      end
  | Raise _ => false
  end.

Lemma name_roundtrip_all :
  forallb name_roundtrip (range 128) = true.
Proof. vm_compute. reflexivity. Qed.

Lemma in_range (n p : Z) : 0 <= p < n -> In p (range n).
Proof.
  intros H. unfold range. apply in_map_iff. exists (Z.to_nat p). split.
  - lia.
  - apply in_seq. lia.
Qed.

(** C6. For every pitch [p] from 0 to 127, [midi_to_note_name p] is a name
    without the flat sign [b], and [note_name_to_midi] maps it back to [p]. *)
Theorem note_name_inverse_on_sharps (p : Z) :
  0 <= p <= 127 ->
  exists n, midi_to_note_name p = Ok n /\
            Py.contains "b" n = false /\
            note_name_to_midi n = Ok p.
Proof.
  intros H.
  pose proof name_roundtrip_all as A.
  rewrite forallb_forall in A.
  specialize (A p (in_range 128 p ltac:(lia))).
  unfold name_roundtrip in A.
  destruct (midi_to_note_name p) as [n|]; [|discriminate].
  exists n. apply andb_true_iff in A. destruct A as [A1 A2].
  split; [reflexivity|]. split.
  - now apply negb_true_iff in A1.
  - destruct (note_name_to_midi n) as [p'|]; [|discriminate].
    apply Z.eqb_eq in A2. now subst.
Qed.

Lemma note_name_inverse_on_sharps_witness :
  exists n, midi_to_note_name 61 = Ok n /\
            Py.contains "b" n = false /\
            note_name_to_midi n = Ok 61.
Proof. apply (note_name_inverse_on_sharps 61). lia. Defined.

End NoteNames.

(* ===================================================================== *)
(** * Facts on the conversion of integers to floats                       *)
(* ===================================================================== *)

Section FloatOfInt.

Lemma iter_pos_invariant {A : Type} (P : A -> Prop) (f : A -> A) :
  (forall x, P x -> P (f x)) ->
  forall p x, P x -> P (iter_pos f p x).
Proof.
  intros Hf. induction p as [p IH|p IH|]; intros x Hx; cbn [iter_pos]; auto.
Qed.

Lemma digits2_pos_size (p : positive) : digits2_pos p = Pos.size p.
Proof. induction p; cbn; congruence. Qed.

Lemma digits2_pos_succ (p : positive) :
  (Zpos (digits2_pos (Pos.succ p)) <= Zpos (digits2_pos p) + 1)%Z.
Proof. induction p; cbn [Pos.succ digits2_pos]; lia. Qed.

Lemma digits2_pos_bound (p : positive) (n : Z) :
  0 <= n -> Zpos p < 2 ^ n -> Zpos (digits2_pos p) <= n.
Proof.
  intros Hn H. rewrite digits2_pos_size.
  pose proof (Pos.size_le p) as L.
  assert (E : Zpos (2 ^ Pos.size p) = 2 ^ Zpos (Pos.size p)) by apply Pos2Z.inj_pow.
  assert (L' : 2 ^ Zpos (Pos.size p) <= 2 * Zpos p) by (rewrite <- E; lia).
  destruct (Z_le_gt_dec (Zpos (Pos.size p)) n) as [|G]; [assumption|exfalso].
  assert (2 ^ (n + 1) <= 2 ^ Zpos (Pos.size p)) by (apply Z.pow_le_mono_r; lia).
  rewrite Z.pow_add_r in * by lia. lia.
Qed.

Lemma digits2_pos_iter_xO (m k : positive) :
  Zpos (digits2_pos (Pos.iter xO m k)) = Zpos (digits2_pos m) + Zpos k.
Proof.
  induction k as [|k IH] using Pos.peano_ind.
  - cbn. lia.
  - rewrite Pos.iter_succ. cbn [digits2_pos]. lia.
Qed.

(** One right shift keeps a mantissa non-negative and no longer. *)
Definition shr_ok (d : Z) (r : shr_record) : Prop :=
  0 <= shr_m r /\ Zdigits2 (shr_m r) <= d.

Lemma shr_1_ok (d : Z) (r : shr_record) : shr_ok d r -> shr_ok d (shr_1 r).
Proof.
  unfold shr_ok. destruct r as [m r s]. cbn [shr_m].
  destruct m as [|[p|p|]|p]; cbn [shr_1 shr_m Zdigits2 digits2_pos]; lia.
Qed.

Lemma shr_fexp_bounds (m e : Z) (l : location) :
  0 <= m ->
  let '(r, e') := shr_fexp prec emax m e l in
  shr_ok (Zdigits2 m) r /\ e' = Z.max e (fexp prec emax (Zdigits2 m + e)).
Proof.
  intros Hm. unfold shr_fexp, shr.
  assert (I : shr_ok (Zdigits2 m) (shr_record_of_loc m l)).
  { unfold shr_ok. destruct l as [|[]]; cbn [shr_record_of_loc shr_m]; lia. }
  destruct (fexp prec emax (Zdigits2 m + e) - e) as [|p|p] eqn:E.
  - split; [exact I|lia].
  - split; [|lia].
    apply iter_pos_invariant; [apply shr_1_ok|exact I].
  - split; [exact I|lia].
Qed.

Lemma round_nearest_even_bounds (m : Z) (l : location) :
  0 <= m ->
  0 <= round_nearest_even m l /\
  Zdigits2 (round_nearest_even m l) <= Zdigits2 m + 1.
Proof.
  intros Hm.
  assert (S1 : 0 <= m + 1 /\ Zdigits2 (m + 1) <= Zdigits2 m + 1).
  { destruct m as [|p|p]; [cbn; lia| |lia].
    replace (Zpos p + 1) with (Zpos (Pos.succ p)) by lia.
    cbn [Zdigits2]. split; [lia|apply digits2_pos_succ]. }
  unfold round_nearest_even.
  destruct l as [|[]]; try destruct (Z.even m); try lia; exact S1.
Qed.

(** Rounding a mantissa of at most 500 bits at a non-positive exponent
    does not overflow. *)
Lemma binary_round_aux_finite (s : bool) (m e : Z) (l : location) :
  0 <= m -> Zdigits2 m <= 500 -> e <= 0 ->
  forall s', binary_round_aux prec emax s m e l <> S754_infinity s'.
Proof.
  intros Hm Hd He s'. unfold binary_round_aux.
  pose proof (shr_fexp_bounds m e l Hm) as B1.
  destruct (shr_fexp prec emax m e l) as [r1 e1].
  destruct B1 as [[P1 D1] E1].
  pose proof (round_nearest_even_bounds (shr_m r1) (loc_of_shr_record r1) P1) as [P2 D2].
  pose proof (shr_fexp_bounds _ e1 loc_Exact P2) as B2.
  destruct (shr_fexp prec emax _ e1 loc_Exact) as [r2 e2].
  destruct B2 as [_ E2].
  destruct (shr_m r2); try discriminate.
  assert (L : e2 <= emax - prec).
  { unfold fexp, SpecFloat.emin, prec, emax in *. lia. }
  apply Z.leb_le in L. rewrite L. discriminate.
Qed.

Lemma binary_round_finite (s : bool) (m : positive) :
  Zpos m < 2 ^ 500 ->
  forall s', binary_round prec emax s m 0 <> S754_infinity s'.
Proof.
  intros H s'. unfold binary_round.
  assert (D : Zpos (digits2_pos m) <= 500) by (apply digits2_pos_bound; lia).
  unfold shl_align.
  destruct (fexp prec emax (Zpos (digits2_pos m) + 0) - 0) as [|k|k] eqn:E;
    try (apply binary_round_aux_finite; cbn [Zdigits2]; lia).
  apply binary_round_aux_finite; cbn [Zdigits2]; try lia.
  rewrite digits2_pos_iter_xO.
  unfold fexp, SpecFloat.emin, prec, emax in E. lia.
Qed.

(** [float(n)] does not raise on an integer below [2^500] in size. *)
Lemma float_of_int_ok (n : Z) :
  Z.abs n < 2 ^ 500 -> exists f, Py.float_of_int n = Ok f.
Proof.
  intros H. unfold Py.float_of_int, binary_normalize.
  destruct n as [|p|p].
  - eexists; reflexivity.
  - pose proof (binary_round_finite false p ltac:(lia)) as F.
    destruct (binary_round prec emax false p 0); eauto. now elim (F s).
  - pose proof (binary_round_finite true p ltac:(lia)) as F.
    destruct (binary_round prec emax true p 0); eauto. now elim (F s).
Qed.

End FloatOfInt.

(* ===================================================================== *)
(** * Drum patterns                                                       *)
(* ===================================================================== *)

Section DrumPattern.

Import Midi.

Lemma for_each_ok {A S : Type} (body : S -> A -> result S) (l : list A) :
  (forall acc x, In x l -> exists acc', body acc x = Ok acc') ->
  forall acc, exists r, for_each body l acc = Ok r.
Proof.
  induction l as [|x l IH]; intros H acc; cbn [for_each].
  - eauto.
  - destruct (H acc x (or_introl eq_refl)) as [acc' E]. rewrite E. cbn [bind].
    apply IH. intros a y Hy. apply H. now right.
Qed.

Lemma range_bounds (n b : Z) : In b (range n) -> 0 <= b < n.
Proof.
  unfold range. rewrite in_map_iff. intros [k [<- Hk]].
  apply in_seq in Hk. lia.
Qed.

(** The notes of one known drum are built without an error. *)
Lemma drum_hits_ok (p bars velocity : Z) (beats : list Py.number) :
  bars < 2 ^ 64 ->
  forall notes, exists r, drum_hits p velocity bars beats notes = Ok r.
Proof.
  intros Hb. unfold drum_hits. apply for_each_ok. intros acc bar Hbar.
  apply range_bounds in Hbar. cbv zeta.
  apply for_each_ok. intros acc' beat _.
  destruct beat as [z|f]; cbn [Py.add bind].
  - eauto.
  - unfold Py.float_binop.
    destruct (float_of_int_ok (bar * 4)) as [x E].
    { assert (2 ^ 66 < 2 ^ 500) by (apply Z.pow_lt_mono_r; lia).
      assert (2 ^ 66 = 4 * 2 ^ 64) by reflexivity. lia. }
    rewrite E. cbn [bind]. eauto.
Qed.

Lemma valid_drum_names :
  repr_list (map fst GM_DRUMS) =
  "['kick', 'snare', 'rimshot', 'clap', 'hihat_closed', 'hihat_open', 'hihat_pedal', 'tom_low', 'tom_mid', 'tom_high', 'crash', 'ride', 'ride_bell']".
Proof. reflexivity. Qed.

Lemma drum_notes_unknown (pattern : list (string * list Py.number)) (bars velocity : Z) :
  bars < 2 ^ 64 ->
  (exists d, In d (map fst pattern) /\ lookup d GM_DRUMS = None) ->
  forall acc, exists d,
    In d (map fst pattern) /\ lookup d GM_DRUMS = None /\
    for_each (drum_item bars velocity) pattern acc
    = Raise (ValueError ("Unknown drum: " ++ d ++ ". Valid: "
                         ++ repr_list (map fst GM_DRUMS))).
Proof.
  intros Hb. induction pattern as [|[n beats] pattern IH]; intros [d [Hin Hd]] acc.
  - destruct Hin.
  - cbn [for_each]. unfold drum_item at 1.
    destruct (lookup n GM_DRUMS) as [p|] eqn:L.
    + destruct (drum_hits_ok p bars velocity beats Hb acc) as [r E].
      rewrite E. cbn [bind].
      destruct Hin as [<-|Hin]; [cbn [fst] in Hd; congruence|].
      destruct (IH (ex_intro _ d (conj Hin Hd)) r) as [d' [H1 [H2 H3]]].
      exists d'. split; [now right|]. split; assumption.
    + exists n. split; [now left|]. split; [assumption|reflexivity].
Qed.

(** C8. A drum-pattern request naming a drum that is not in [GM_DRUMS]
    fails with the error that lists all thirteen valid names, and the world
    -- the files in particular -- is left as it was: nothing is written.
    (The generator takes no project model, so none is changed. The bound on
    [bars] keeps the bar offsets within the range of a float.) *)
Theorem unknown_drum_rejected (output_path : string)
  (pattern : list (string * list Py.number)) (bars tempo_bpm velocity : Z) (w : world) :
  bars < 2 ^ 64 ->
  (exists d, In d (map fst pattern) /\ lookup d GM_DRUMS = None) ->
  exists d,
    In d (map fst pattern) /\ lookup d GM_DRUMS = None /\
    create_drum_pattern output_path pattern bars tempo_bpm velocity w =
    (Raise (ValueError ("Unknown drum: " ++ d ++ ". Valid: ['kick', 'snare', 'rimshot', 'clap', 'hihat_closed', 'hihat_open', 'hihat_pedal', 'tom_low', 'tom_mid', 'tom_high', 'crash', 'ride', 'ride_bell']")), w).
Proof.
  intros Hb Hex.
  destruct (drum_notes_unknown pattern bars velocity Hb Hex []) as [d [H1 [H2 H3]]].
  exists d. split; [assumption|]. split; [assumption|].
  unfold create_drum_pattern, io_bind, lift, drum_notes.
  rewrite H3. rewrite valid_drum_names. reflexivity.
Qed.

Lemma unknown_drum_rejected_witness :
  exists d,
    In d (map fst [("kick", [Py.PyInt 0; Py.PyFloat 2]); ("cowbell", [Py.PyInt 1])]) /\
    lookup d GM_DRUMS = None /\
    create_drum_pattern "drums.mid"
      [("kick", [Py.PyInt 0; Py.PyFloat 2]); ("cowbell", [Py.PyInt 1])] 4 120 100
      {| files := []; entropy := fun _ => 0; drawn := 0 |} =
    (Raise (ValueError ("Unknown drum: " ++ d ++ ". Valid: ['kick', 'snare', 'rimshot', 'clap', 'hihat_closed', 'hihat_open', 'hihat_pedal', 'tom_low', 'tom_mid', 'tom_high', 'crash', 'ride', 'ride_bell']")),
     {| files := []; entropy := fun _ => 0; drawn := 0 |}).
Proof.
  apply unknown_drum_rejected.
  - reflexivity.
  - exists "cowbell". split; [cbn; auto | reflexivity].
Defined.

End DrumPattern.

(* ===================================================================== *)
(** * Adding an item to a track                                           *)
(* ===================================================================== *)

Section AddItem.

Import Rpp.

(** The track [t] with [item] appended to its items. *)
Definition with_item (t : Track) (item : MidiItem) : Track :=
  {| name := name t; index := index t; guid := guid t;
     midi_items := (midi_items t ++ [item])%list |}.

Lemma append_item_length (l : list Track) (i : nat) (item : MidiItem) :
  List.length (append_item l i item) = List.length l.
Proof.
  revert i. induction l as [|t l IH]; intros [|i]; cbn; auto.
Qed.

Lemma append_item_at (l : list Track) (i : nat) (item : MidiItem) (t : Track) :
  nth_error l i = Some t ->
  nth_error (append_item l i item) i = Some (with_item t item).
Proof.
  revert i. induction l as [|x l IH]; intros [|i]; cbn; try discriminate.
  - now intros [= ->].
  - apply IH.
Qed.

Lemma append_item_elsewhere (l : list Track) (i j : nat) (item : MidiItem) :
  i <> j -> nth_error (append_item l i item) j = nth_error l j.
Proof.
  revert i j. induction l as [|x l IH]; intros [|i] [|j] H; cbn; auto.
  contradiction.
Qed.

Lemma getitem_negative {A : Type} (l : list A) (i : Z) :
  i < 0 -> - i <= Z.of_nat (List.length l) ->
  exists x, nth_error l (Z.to_nat (i + Z.of_nat (List.length l))) = Some x /\
            Py.getitem l i = Ok x.
Proof.
  intros H1 H2. unfold Py.getitem.
  destruct (i <? 0) eqn:E; [|apply Z.ltb_ge in E; lia].
  assert (B : (0 <=? i + Z.of_nat (List.length l))
              && (i + Z.of_nat (List.length l) <? Z.of_nat (List.length l)) = true).
  { apply andb_true_iff. split; [apply Z.leb_le|apply Z.ltb_lt]; lia. }
  rewrite B.
  destruct (nth_error l (Z.to_nat (i + Z.of_nat (List.length l)))) as [x|] eqn:N.
  - eauto.
  - apply nth_error_None in N. lia.
Qed.

Variable midi_length : string -> io Py.number.

(** The length of the new item: the argument, or what the duration reader
    returns for the file. *)
Definition resolve_length (midi_path : string) (len_ : option Py.number)
  : io Py.number :=
  match len_ with
  | None => midi_length midi_path
  | Some l => ret l
  end.

(** C10. With a non-empty track list and a negative [track_index] of
    magnitude at most the track count, the range check of [add_midi_item]
    passes: no "Track index ... out of range" error is raised. Once the
    item's length is known (given, or read from the file), the item is
    appended to the track at position [track count + track_index], counted
    from the end as Python does ([-1] is the last track); the other tracks
    stay as they are. The only error possible is the duration reader's. *)
Theorem add_midi_item_negative_index (self : ReaperProject) (track_index : Z)
  (midi_path : string) (pos : Py.number) (len_ : option Py.number) (w : world) :
  tracks self <> [] ->
  track_index < 0 ->
  - track_index <= Z.of_nat (List.length (tracks self)) ->
  let k := Z.to_nat (Z.of_nat (List.length (tracks self)) + track_index) in
  exists t, nth_error (tracks self) k = Some t /\
    match resolve_length midi_path len_ w with
    | (Raise e, w') =>
        add_midi_item midi_length self track_index midi_path pos len_ w = (Raise e, w')
    | (Ok l, w') =>
        let item := {| path := midi_path; position := pos; length := l |} in
        exists self',
          add_midi_item midi_length self track_index midi_path pos len_ w = (Ok self', w') /\
          List.length (tracks self') = List.length (tracks self) /\
          nth_error (tracks self') k = Some (with_item t item) /\
          (forall j, j <> k -> nth_error (tracks self') j = nth_error (tracks self) j)
    end.
Proof.
  intros _ Hneg Hmag k.
  destruct (getitem_negative (tracks self) track_index Hneg Hmag) as [t [N G]].
  replace (Z.to_nat (track_index + Z.of_nat (List.length (tracks self)))) with k in N
    by (unfold k; f_equal; lia).
  exists t. split; [exact N|].
  unfold add_midi_item, resolve_length.
  destruct (Z.of_nat (List.length (tracks self)) <=? track_index) eqn:C;
    [apply Z.leb_le in C; lia|].
  unfold io_bind.
  destruct (match len_ with None => midi_length midi_path | Some l => ret l end w)
    as [[l|e] w'] eqn:R; [|reflexivity].
  unfold lift. rewrite G. unfold ret.
  destruct (track_index <? 0) eqn:E; [|apply Z.ltb_ge in E; lia].
  replace (Z.to_nat (track_index + Z.of_nat (List.length (tracks self)))) with k
    by (unfold k; f_equal; lia).
  eexists. split; [reflexivity|]. cbn [tracks set_tracks].
  split; [apply append_item_length|]. split.
  - now apply append_item_at.
  - intros j Hj. apply append_item_elsewhere. auto.
Qed.

End AddItem.

(** C10 at a project of two tracks, index -1, with the length given. *)
Lemma add_midi_item_negative_index_witness :
  let self :=
    {| Rpp.project_path := None; Rpp.tempo := Py.PyFloat 120;
       Rpp.time_signature := (4, 4); Rpp.sample_rate := 44100;
       Rpp.render_file := "render";
       Rpp.tracks := [ {| Rpp.name := "Bass"; Rpp.index := 0; Rpp.guid := "a";
                          Rpp.midi_items := [] |};
                       {| Rpp.name := "Drums"; Rpp.index := 1; Rpp.guid := "b";
                          Rpp.midi_items := [] |} ];
       Rpp._raw_lines := [] |} in
  let w := {| files := []; entropy := fun _ => 0; drawn := 0 |} in
  let reader := fun _ : string => throw (A := Py.number) (FileNotFoundError "") in
  exists t, nth_error (Rpp.tracks self) 1 = Some t /\
    exists self',
      Rpp.add_midi_item reader self (-1) "drums.mid" (Py.PyFloat 0) (Some (Py.PyFloat 8)) w
      = (Ok self', w) /\
      List.length (Rpp.tracks self') = 2%nat /\
      nth_error (Rpp.tracks self') 1 =
        Some (with_item t {| Rpp.path := "drums.mid"; Rpp.position := Py.PyFloat 0;
                             Rpp.length := Py.PyFloat 8 |}) /\
      (forall j, j <> 1%nat -> nth_error (Rpp.tracks self') j = nth_error (Rpp.tracks self) j).
Proof.
  intros self w reader.
  exact (add_midi_item_negative_index reader self (-1) "drums.mid" (Py.PyFloat 0)
           (Some (Py.PyFloat 8)) w ltac:(discriminate) ltac:(lia) ltac:(cbn; lia)).
Defined.

(* ===================================================================== *)
(** * The note-list encoder                                               *)
(* ===================================================================== *)

(** The messages of a track with their absolute ticks: the running sum of
    the delta times, starting from [cur]. *)
Fixpoint absolute (cur : Z) (track : list msg) : list (Z * msg) :=
  match track with
  | [] => []
  | m :: track' =>
      let t := cur + Mido.msg_time m in
      (t, m) :: absolute t track'
  end.

(** [z] is the float [x] truncated toward zero: [x] is finite, [z] has its
    sign, and [|z| <= |x| < |z| + 1] (for [|x| = m * 2^e]). *)
Definition truncation (x : float) (z : Z) : Prop :=
  match Prim2SF x with
  | S754_zero _ => z = 0
  | S754_finite s m e =>
      (if s then z <= 0 else 0 <= z) /\
      (0 <= e -> Z.abs z = Zpos m * 2 ^ e) /\
      (e < 0 -> Z.abs z * 2 ^ (- e) <= Zpos m < (Z.abs z + 1) * 2 ^ (- e))
  | _ => False
  end.

(** [z] is [int(beats * ticks_per_beat)]: the exact product of two
    integers, or the truncated float product. *)
Definition truncated_ticks (beats : Py.number) (ticks_per_beat z : Z) : Prop :=
  match beats with
  | Py.PyInt b => z = b * ticks_per_beat
  | Py.PyFloat f =>
      exists t, Py.float_of_int ticks_per_beat = Ok t /\ truncation (f * t)%float z
  end.

(** What the specification states instead: [round(beats * ticks_per_beat)]. *)
Definition rounded_ticks (beats : Py.number) (ticks_per_beat : Z) : result Z :=
  p <- Py.mul beats (Py.PyInt ticks_per_beat) ;; Py.round p.

(** The two events of a note whose start and duration are [s] and [d] ticks. *)
Definition events_of (note : Midi.Note) (sd : Z * Z) : list Midi.event :=
  [ (fst sd, "note_on", Midi.pitch note, Midi.velocity note);
    (fst sd + snd sd, "note_off", Midi.pitch note, 0) ].

(** A duration that is zero or negative. *)
Definition nonpositive (x : Py.number) : bool :=
  match x with
  | Py.PyInt z => z <=? 0
  | Py.PyFloat f => PrimFloat.leb f 0
  end.

Section Sorting.

Import Midi.

Context {A K : Type} (le : K -> K -> bool) (key : A -> K).
Hypothesis le_total : forall a b, le a b = true \/ le b a = true.
Hypothesis le_trans : forall a b c, le a b = true -> le b c = true -> le a c = true.

Let ordered (x y : A) : Prop := le (key x) (key y) = true.

Lemma insert_by_perm (x : A) (l : list A) :
  Permutation (insert_by le key x l) (x :: l).
Proof.
  induction l as [|y l IH]; cbn [insert_by]; [reflexivity|].
  destruct (le (key x) (key y)); [reflexivity|].
  rewrite IH. apply perm_swap.
Qed.

Lemma sort_by_perm (l : list A) : Permutation (sort_by le key l) l.
Proof.
  induction l as [|x l IH]; cbn [sort_by fold_right]; [reflexivity|].
  fold (sort_by le key l). rewrite insert_by_perm. now constructor.
Qed.

Lemma insert_by_sorted (x : A) (l : list A) :
  StronglySorted ordered l -> StronglySorted ordered (insert_by le key x l).
Proof.
  induction 1 as [|y l S IH F]; cbn [insert_by].
  - repeat constructor.
  - destruct (le (key x) (key y)) eqn:E.
    + constructor; [now constructor|].
      constructor; [exact E|].
      eapply Forall_impl; [|exact F]. intros z Hz. unfold ordered in *. eauto.
    + constructor; [exact IH|].
      rewrite insert_by_perm. constructor; [|exact F].
      unfold ordered. destruct (le_total (key x) (key y)); congruence.
Qed.

Lemma sort_by_sorted (l : list A) : StronglySorted ordered (sort_by le key l).
Proof.
  induction l as [|x l IH]; cbn [sort_by fold_right]; [constructor|].
  now apply insert_by_sorted.
Qed.

Lemma sorted_nth (l : list A) (i j : nat) (x y : A) :
  StronglySorted ordered l -> (i < j)%nat ->
  nth_error l i = Some x -> nth_error l j = Some y -> ordered x y.
Proof.
  intros S. revert i j. induction S as [|z l S IH F]; intros i j Hij Hi Hj.
  - destruct i; discriminate.
  - destruct j as [|j]; [lia|]. destruct i as [|i]; cbn in Hi, Hj.
    + injection Hi as ->. rewrite Forall_forall in F. apply F.
      eapply nth_error_In; eauto.
    + eapply IH; [|eauto|eauto]. lia.
Qed.

End Sorting.

Section Encoder.

Import Midi.

Lemma key_le_total (a b : Z * bool) : key_le a b = true \/ key_le b a = true.
Proof.
  destruct a as [x p], b as [y r]. unfold key_le. cbn [fst snd].
  rewrite !orb_true_iff, !andb_true_iff, !Z.ltb_lt, !Z.eqb_eq.
  destruct (Z.lt_trichotomy x y) as [H|[H|H]]; auto.
  destruct p, r; cbn; auto.
Qed.

Lemma key_le_trans (a b c : Z * bool) :
  key_le a b = true -> key_le b c = true -> key_le a c = true.
Proof.
  destruct a as [x p], b as [y r], c as [z s]. unfold key_le. cbn [fst snd].
  rewrite !orb_true_iff, !andb_true_iff, !Z.ltb_lt, !Z.eqb_eq.
  intros [H1|[H1 I1]] [H2|[H2 I2]]; try (left; lia).
  right. split; [lia|]. destruct p, r, s; auto.
Qed.

(** An off event does not sort after an on event of the same tick. *)
Lemma key_le_on_off (t : Z) (e1 e2 : event) :
  event_tick e1 = t -> event_tick e2 = t ->
  event_type e1 = "note_on" -> event_type e2 = "note_off" ->
  key_le (sort_key e1) (sort_key e2) = false.
Proof.
  intros T1 T2 K1 K2. unfold key_le, sort_key. cbn [fst snd].
  rewrite T1, T2, K1, K2, Z.ltb_irrefl, Z.eqb_refl. reflexivity.
Qed.

(** The ticks of the notes, as the first loop computes them. *)
Definition ticks_computed (ticks_per_beat : Z) (note : Note) (sd : Z * Z) : Prop :=
  start_ticks note ticks_per_beat = Ok (fst sd) /\
  duration_ticks note ticks_per_beat = Ok (snd sd).

Definition all_events (notes : list Note) (sds : list (Z * Z)) : list event :=
  List.concat (map (fun p => events_of (fst p) (snd p)) (combine notes sds)).

Lemma note_events_from (notes : list Note) (tpb : Z) :
  forall acc evs,
    for_each
      (fun (events : list event) (note : Note) =>
         start <- start_ticks note tpb ;;
         d <- duration_ticks note tpb ;;
         let end_ := start + d in
         let events := (events ++ [(start, "note_on", pitch note, velocity note)])%list in
         let events := (events ++ [(end_, "note_off", pitch note, 0)])%list in
         Ok events)
      notes acc = Ok evs ->
    exists sds, Forall2 (ticks_computed tpb) notes sds /\
                evs = (acc ++ all_events notes sds)%list.
Proof.
  induction notes as [|n notes IH]; intros acc evs H; cbn [for_each] in H.
  - injection H as <-. exists []. split; [constructor|].
    unfold all_events. cbn. now rewrite List.app_nil_r.
  - destruct (start_ticks n tpb) as [s|] eqn:Es; [|discriminate].
    destruct (duration_ticks n tpb) as [d|] eqn:Ed; [|discriminate].
    cbn [bind] in H. cbv zeta in H.
    apply IH in H. destruct H as [sds [F ->]].
    exists ((s, d) :: sds). split.
    + constructor; [split; assumption|exact F].
    + unfold all_events. cbn [combine map List.concat events_of fst snd].
      rewrite <- !List.app_assoc. reflexivity.
Qed.

Lemma note_events_spec (notes : list Note) (tpb : Z) (evs : list event) :
  note_events notes tpb = Ok evs ->
  exists sds, Forall2 (ticks_computed tpb) notes sds /\ evs = all_events notes sds.
Proof. intros H. apply note_events_from in H. exact H. Qed.

Lemma note_events_complete (notes : list Note) (tpb : Z) (sds : list (Z * Z)) :
  Forall2 (ticks_computed tpb) notes sds ->
  note_events notes tpb = Ok (all_events notes sds).
Proof.
  unfold note_events. intros F.
  enough (G : forall acc,
             for_each
               (fun (events : list event) (note : Note) =>
                  start <- start_ticks note tpb ;;
                  d <- duration_ticks note tpb ;;
                  let end_ := start + d in
                  let events := (events ++ [(start, "note_on", pitch note, velocity note)])%list in
                  let events := (events ++ [(end_, "note_off", pitch note, 0)])%list in
                  Ok events)
               notes acc = Ok (acc ++ all_events notes sds)%list) by apply (G []).
  induction F as [|n sd notes sds [Hs Hd] F IH]; intros acc; cbn [for_each].
  - unfold all_events. cbn. now rewrite List.app_nil_r.
  - rewrite Hs, Hd. cbn [bind]. cbv zeta. rewrite IH.
    unfold all_events. cbn [combine map List.concat events_of fst snd].
    rewrite <- !List.app_assoc. reflexivity.
Qed.

(** The second loop, written with the messages in front. *)
Fixpoint delta_list (cur : Z) (events : list event) : result (list msg) :=
  match events with
  | [] => Ok []
  | (abs_time, msg_type, p, v) :: events' =>
      m <- Mido.Message msg_type p v (abs_time - cur) ;;
      ms <- delta_list abs_time events' ;;
      Ok (m :: ms)
  end.

Lemma last_cons_default {T : Type} (l : list T) :
  forall a d, last (a :: l) d = last l a.
Proof.
  induction l as [|z l IH]; intros a d; [reflexivity|].
  change (last (a :: z :: l) d) with (last (z :: l) d).
  now rewrite !IH.
Qed.

Lemma delta_messages_from (events : list event) :
  forall cur track,
    for_each
      (fun (st : Z * list msg) (e : event) =>
         let '(current_time, track) := st in
         let '(abs_time, msg_type, pitch, velocity) := e in
         let delta := abs_time - current_time in
         m <- Mido.Message msg_type pitch velocity delta ;;
         Ok (abs_time, (track ++ [m])%list))
      events (cur, track)
    = (ms <- delta_list cur events ;;
       Ok (last (map event_tick events) cur, (track ++ ms)%list)).
Proof.
  induction events as [|[[[t ty] p] v] events IH]; intros cur track.
  - cbn. now rewrite List.app_nil_r.
  - cbn [for_each delta_list]. cbv zeta.
    destruct (Mido.Message ty p v (t - cur)) as [m|] eqn:E; cbn [bind]; [|reflexivity].
    rewrite IH. destruct (delta_list t events) as [ms|]; cbn [bind]; [|reflexivity].
    rewrite <- List.app_assoc. cbn [app]. f_equal. f_equal.
    cbn [map]. change (event_tick (t, ty, p, v)) with t.
    symmetry. apply last_cons_default.
Qed.

(** A message made of an event. *)
Definition message_of (e : event) (tm : Z * msg) : Prop :=
  fst tm = event_tick e /\
  exists d, snd tm = ChannelMessage (event_type e) (snd (fst e)) (snd e) d.

Lemma delta_list_absolute (events : list event) :
  forall cur ms, delta_list cur events = Ok ms ->
                 Forall2 message_of events (absolute cur ms).
Proof.
  induction events as [|[[[t ty] p] v] events IH]; intros cur ms H; cbn [delta_list] in H.
  - injection H as <-. constructor.
  - unfold Mido.Message, Mido.data_byte in H.
    destruct ((0 <=? p) && (p <=? 127)); [|discriminate]. cbn [bind] in H.
    destruct ((0 <=? v) && (v <=? 127)); [|discriminate]. cbn [bind] in H.
    destruct (delta_list t events) as [ms'|] eqn:E; [|discriminate].
    injection H as <-. cbn [absolute Mido.msg_time].
    replace (cur + (t - cur)) with t by lia.
    constructor; [|now apply IH].
    split; [reflexivity|]. eexists. reflexivity.
Qed.

End Encoder.

Section EncodedStream.

Import Midi.

Lemma forall2_nth_right {X Y : Type} (R : X -> Y -> Prop) (l : list X) (l' : list Y) :
  Forall2 R l l' ->
  forall i y, nth_error l' i = Some y -> exists x, nth_error l i = Some x /\ R x y.
Proof.
  induction 1 as [|x y0 l l' HR F IH]; intros [|i] y H; cbn in H; try discriminate.
  - injection H as <-. exists x. split; [reflexivity|assumption].
  - apply IH in H. exact H.
Qed.

Lemma forall2_nth_left {X Y : Type} (R : X -> Y -> Prop) (l : list X) (l' : list Y) :
  Forall2 R l l' ->
  forall i x, nth_error l i = Some x -> exists y, nth_error l' i = Some y /\ R x y.
Proof.
  induction 1 as [|x0 y l l' HR F IH]; intros [|i] x H; cbn in H; try discriminate.
  - injection H as <-. exists y. split; [reflexivity|assumption].
  - apply IH in H. exact H.
Qed.

Lemma absolute_app (a b : list msg) :
  forall c, exists c', absolute c (a ++ b) = (absolute c a ++ absolute c' b)%list.
Proof.
  induction a as [|m a IH]; intros c; cbn [app absolute].
  - exists c. reflexivity.
  - destruct (IH (c + Mido.msg_time m)) as [c' E]. exists c'. now rewrite E.
Qed.


(** The shape of a track the encoder has built. *)
Definition encoded (events : list event) (track : list msg) : Prop :=
  exists tempo ms,
    track = (SetTempo tempo 0 :: ms ++ [EndOfTrack 0])%list /\
    delta_list 0 (sort_by key_le sort_key events) = Ok ms.

Lemma build_track_inv (notes : list Note) (bpm tpb : Z) (track : list msg) :
  build_track notes bpm tpb = Ok track ->
  exists events, note_events notes tpb = Ok events /\ encoded events track.
Proof.
  unfold build_track. intros H.
  destruct (Mido.bpm2tempo bpm) as [tempo|]; [|discriminate]. cbn [bind] in H.
  unfold Mido.MetaMessage_set_tempo in H.
  destruct ((0 <=? tempo) && (tempo <=? 16777215)); [|discriminate]. cbn [bind] in H.
  destruct (note_events notes tpb) as [events|]; [|discriminate]. cbn [bind] in H.
  unfold delta_messages in H. rewrite delta_messages_from in H.
  destruct (delta_list 0 (sort_by key_le sort_key events)) as [ms|] eqn:D; [|discriminate].
  cbn [bind snd] in H. injection H as <-.
  exists events. split; [reflexivity|]. exists tempo, ms. split; [reflexivity|exact D].
Qed.

Lemma read_write_file (w : world) (p : string) (f : file) :
  read_file (write_file w p f) p = Some f.
Proof.
  unfold read_file, write_file. cbn [files lookup]. now rewrite String.eqb_refl.
Qed.

(** A file saved without an error holds the header and the track. *)
Lemma save_inv (tpb : Z) (track : list msg) (p : string) (w w' : world) :
  Mido.save {| Mido.ticks_per_beat := tpb; Mido.tracks := [track] |} p w = (Ok tt, w') ->
  read_file w' p = Some (MidiData [Header 1 1 tpb; TrackChunk track]).
Proof.
  unfold Mido.save, io_bind. cbn [Mido.tracks Mido.ticks_per_beat List.length].
  destruct (Mido.int16 (Z.of_nat 1) && Mido.int16 tpb); [|discriminate].
  cbn [io_for_each]. unfold io_bind, Mido.write_track.
  destruct (forallb (fun m => 0 <=? Mido.msg_time m) track); [|discriminate].
  unfold ret. intros [= <-]. now rewrite read_write_file.
Qed.

Lemma create_midi_file_inv (p : string) (notes : list Note) (bpm tpb : Z) (w w' : world) :
  create_midi_file p notes bpm tpb w = (Ok tt, w') ->
  exists events track,
    note_events notes tpb = Ok events /\ encoded events track /\
    read_file w' p = Some (MidiData [Header 1 1 tpb; TrackChunk track]).
Proof.
  unfold create_midi_file, io_bind, lift. intros H.
  destruct (build_track notes bpm tpb) as [track|] eqn:B; [|discriminate].
  apply build_track_inv in B. destruct B as [events [E1 E2]].
  exists events, track. split; [assumption|]. split; [assumption|].
  eapply save_inv. exact H.
Qed.

(** A channel message of an encoded track stands at a position [S i] and
    is the message of the [i]-th event in sorted order. *)
Lemma encoded_channel_message (events : list event) (track : list msg)
  (i : nat) (t : Z) (ty : string) (p v d : Z) :
  encoded events track ->
  nth_error (absolute 0 track) i = Some (t, ChannelMessage ty p v d) ->
  exists i' e, i = S i' /\
    nth_error (sort_by key_le sort_key events) i' = Some e /\
    event_tick e = t /\ event_type e = ty.
Proof.
  intros [tempo [ms [-> D]]] H.
  apply delta_list_absolute in D.
  change (SetTempo tempo 0 :: ms ++ [EndOfTrack 0])%list
    with ([SetTempo tempo 0] ++ (ms ++ [EndOfTrack 0]))%list in H.
  cbn [app absolute Mido.msg_time Z.add] in H.
  destruct i as [|i']; [discriminate|]. cbn [nth_error] in H.
  destruct (absolute_app ms [EndOfTrack 0] 0) as [c E].
  rewrite E in H. cbn [absolute] in H.
  destruct (Nat.lt_ge_cases i' (List.length (absolute 0 ms))) as [L|G].
  - rewrite nth_error_app1 in H by exact L.
    destruct (forall2_nth_right _ _ _ D i' _ H) as [e [N [T [d' M]]]].
    exists i', e. split; [reflexivity|]. split; [exact N|].
    cbn [fst snd] in T, M. injection M as -> _ _ _.
    split; [symmetry; exact T|reflexivity].
  - rewrite nth_error_app2 in H by exact G.
    destruct (i' - List.length (absolute 0 ms))%nat as [|[|k]];
      cbn [nth_error] in H; discriminate.
Qed.

(** The message of an event of the note list is in the encoded track. *)
Lemma encoded_event_present (events : list event) (track : list msg) (e : event) :
  encoded events track -> In e events ->
  exists i d, nth_error (absolute 0 track) i
              = Some (event_tick e, ChannelMessage (event_type e) (snd (fst e)) (snd e) d).
Proof.
  intros [tempo [ms [-> D]]] H.
  apply delta_list_absolute in D.
  assert (S : In e (sort_by key_le sort_key events)).
  { eapply Permutation_in; [|exact H]. symmetry. apply sort_by_perm. }
  apply In_nth_error in S. destruct S as [i N].
  destruct (forall2_nth_left _ _ _ D i e N) as [[t m] [N' [T [d M]]]].
  cbn [fst snd] in T, M. subst t m.
  exists (S i), d.
  cbn [absolute nth_error Mido.msg_time Z.add].
  destruct (absolute_app ms [EndOfTrack 0] 0) as [c E]. rewrite E.
  rewrite nth_error_app1; [exact N'|].
  apply nth_error_Some. rewrite N'. discriminate.
Qed.

End EncodedStream.

Section Ordering.

Import Midi.

Lemma note_events_in (tpb : Z) (notes : list Note) (sds : list (Z * Z)) (a : Note) :
  Forall2 (ticks_computed tpb) notes sds -> In a notes ->
  exists sd, ticks_computed tpb a sd /\
             forall e, In e (events_of a sd) -> In e (all_events notes sds).
Proof.
  induction 1 as [|n sd notes sds T F IH]; intros H; [destruct H|].
  unfold all_events. cbn [combine map List.concat fst snd].
  destruct H as [->|H].
  - exists sd. split; [exact T|]. intros e He. apply in_or_app. now left.
  - destruct (IH H) as [sd' [T' I]]. exists sd'. split; [exact T'|].
    intros e He. apply in_or_app. right. now apply I.
Qed.

(** In an encoded track, a note-off at some tick stands before every
    note-on at the same tick. *)
Lemma encoded_off_before_on (events : list event) (track : list msg)
  (i j : nat) (t p1 v1 d1 p2 v2 d2 : Z) :
  encoded events track ->
  nth_error (absolute 0 track) i = Some (t, ChannelMessage "note_off" p1 v1 d1) ->
  nth_error (absolute 0 track) j = Some (t, ChannelMessage "note_on" p2 v2 d2) ->
  (i < j)%nat.
Proof.
  intros En Hi Hj.
  destruct (encoded_channel_message _ _ _ _ _ _ _ _ En Hi) as [i' [e1 [-> [N1 [T1 K1]]]]].
  destruct (encoded_channel_message _ _ _ _ _ _ _ _ En Hj) as [j' [e2 [-> [N2 [T2 K2]]]]].
  apply -> Nat.succ_lt_mono.
  destruct (Nat.lt_trichotomy i' j') as [L|[E|G]]; [exact L| |].
  - subst j'. rewrite N1 in N2. injection N2 as ->. rewrite K1 in K2. discriminate.
  - pose proof (sorted_nth key_le sort_key _ _ _ _ _
                  (sort_by_sorted key_le sort_key key_le_total key_le_trans events)
                  G N2 N1) as O.
    cbv beta zeta in O. rewrite (key_le_on_off t e2 e1 T2 T1 K2 K1) in O. discriminate.
Qed.

(** C3. In the track of a file the encoder has written, of a note-off and
    a note-on message at the same absolute tick the note-off comes first;
    in particular, when one note ends at the tick where another note of the
    same pitch starts, the note-off of the first stands before the note-on
    of the second. *)
Theorem note_off_before_note_on (p : string) (notes : list Note) (bpm tpb : Z)
  (w w' : world) :
  create_midi_file p notes bpm tpb w = (Ok tt, w') ->
  exists track,
    read_file w' p = Some (MidiData [Header 1 1 tpb; TrackChunk track]) /\
    (forall i j t p1 v1 d1 p2 v2 d2,
       nth_error (absolute 0 track) i = Some (t, ChannelMessage "note_off" p1 v1 d1) ->
       nth_error (absolute 0 track) j = Some (t, ChannelMessage "note_on" p2 v2 d2) ->
       (i < j)%nat) /\
    (forall a b sa da sb,
       In a notes -> In b notes -> pitch a = pitch b ->
       start_ticks a tpb = Ok sa -> duration_ticks a tpb = Ok da ->
       start_ticks b tpb = Ok sb -> sa + da = sb ->
       exists i j d1 d2,
         (i < j)%nat /\
         nth_error (absolute 0 track) i
         = Some (sb, ChannelMessage "note_off" (pitch a) 0 d1) /\
         nth_error (absolute 0 track) j
         = Some (sb, ChannelMessage "note_on" (pitch b) (velocity b) d2)).
Proof.
  intros H. apply create_midi_file_inv in H.
  destruct H as [events [track [Ev [En R]]]].
  exists track. split; [exact R|]. split.
  - intros i j t p1 v1 d1 p2 v2 d2. now apply encoded_off_before_on with (events := events).
  - intros a b sa da sb Ha Hb Hp Sa Da Sb Hend.
    apply note_events_spec in Ev. destruct Ev as [sds [F ->]].
    destruct (note_events_in tpb notes sds a F Ha) as [[sa' da'] [[Ta Tda] Ia]].
    destruct (note_events_in tpb notes sds b F Hb) as [[sb' db'] [[Tb _] Ib]].
    cbn [fst snd] in Ta, Tda, Tb.
    assert (sa' = sa) by congruence. assert (da' = da) by congruence.
    assert (sb' = sb) by congruence. subst sa' da' sb'.
    destruct (encoded_event_present _ _ (sa + da, "note_off", pitch a, 0) En) as [i [d1 Hi]].
    { apply Ia. cbn. auto. }
    destruct (encoded_event_present _ _ (sb, "note_on", pitch b, velocity b) En) as [j [d2 Hj]].
    { apply Ib. cbn. auto. }
    cbn [event_tick event_type fst snd] in Hi, Hj. rewrite Hend in Hi.
    exists i, j, d1, d2. split; [|split; assumption].
    eapply encoded_off_before_on; eauto.
Qed.

End Ordering.

(** C3 on two quarter notes of the same pitch, the second starting where
    the first ends. *)
Lemma note_off_before_note_on_witness :
  let notes :=
    [ {| Midi.pitch := 60; Midi.start_beat := Py.PyFloat 0;
         Midi.duration_beats := Py.PyFloat 1; Midi.velocity := 100 |};
      {| Midi.pitch := 60; Midi.start_beat := Py.PyFloat 1;
         Midi.duration_beats := Py.PyFloat 1; Midi.velocity := 100 |} ] in
  let w := {| files := []; entropy := fun _ => 0; drawn := 0 |} in
  let w' := snd (Midi.create_midi_file "melody.mid" notes 120 480 w) in
  Midi.create_midi_file "melody.mid" notes 120 480 w = (Ok tt, w') /\
  exists track,
    read_file w' "melody.mid" = Some (MidiData [Header 1 1 480; TrackChunk track]) /\
    (forall i j t p1 v1 d1 p2 v2 d2,
       nth_error (absolute 0 track) i = Some (t, ChannelMessage "note_off" p1 v1 d1) ->
       nth_error (absolute 0 track) j = Some (t, ChannelMessage "note_on" p2 v2 d2) ->
       (i < j)%nat) /\
    (forall a b sa da sb,
       In a notes -> In b notes -> Midi.pitch a = Midi.pitch b ->
       Midi.start_ticks a 480 = Ok sa -> Midi.duration_ticks a 480 = Ok da ->
       Midi.start_ticks b 480 = Ok sb -> sa + da = sb ->
       exists i j d1 d2,
         (i < j)%nat /\
         nth_error (absolute 0 track) i
         = Some (sb, ChannelMessage "note_off" (Midi.pitch a) 0 d1) /\
         nth_error (absolute 0 track) j
         = Some (sb, ChannelMessage "note_on" (Midi.pitch b) (Midi.velocity b) d2)).
Proof.
  intros notes w w'.
  assert (H : Midi.create_midi_file "melody.mid" notes 120 480 w = (Ok tt, w'))
    by (vm_compute; reflexivity).
  split; [exact H|].
  exact (note_off_before_note_on "melody.mid" notes 120 480 w w' H).
Defined.

Section Ticks.

Import Midi.

Lemma int_of_float_truncation (x : float) (z : Z) :
  Py.int_of_float x = Ok z -> truncation x z.
Proof.
  unfold Py.int_of_float, truncation.
  destruct (Prim2SF x) as [s|s| |s m e]; try discriminate.
  - now intros [= <-].
  - set (a := if 0 <=? e then Zpos m * 2 ^ e else Zpos m / 2 ^ (- e)).
    assert (Ha : 0 <= a /\ (0 <= e -> a = Zpos m * 2 ^ e) /\
                 (e < 0 -> a * 2 ^ (- e) <= Zpos m < (a + 1) * 2 ^ (- e))).
    { unfold a. destruct (0 <=? e) eqn:E.
      - apply Z.leb_le in E.
        assert (0 < 2 ^ e) by (apply Z.pow_pos_nonneg; lia).
        split; [nia|]. split; [reflexivity|lia].
      - apply Z.leb_gt in E.
        assert (P : 0 < 2 ^ (- e)) by (apply Z.pow_pos_nonneg; lia).
        pose proof (Z.div_pos (Zpos m) (2 ^ (- e)) ltac:(lia) P) as D0.
        pose proof (Z.mul_div_le (Zpos m) (2 ^ (- e)) P) as D1.
        pose proof (Z.mul_succ_div_gt (Zpos m) (2 ^ (- e)) P) as D2.
        split; [exact D0|]. split; [lia|]. intros _. lia. }
    clearbody a. intros [= <-].
    destruct Ha as [A0 [A1 A2]].
    destruct s.
    + split; [lia|]. rewrite Z.abs_opp, Z.abs_eq by lia. split; assumption.
    + split; [lia|]. rewrite Z.abs_eq by lia. split; assumption.
Qed.

Lemma int_of_product_truncated (beats : Py.number) (tpb z : Z) :
  (p <- Py.mul beats (Py.PyInt tpb) ;; Py.int p) = Ok z ->
  truncated_ticks beats tpb z.
Proof.
  destruct beats as [b|f]; cbn [Py.mul bind Py.int truncated_ticks].
  - now intros [= <-].
  - unfold Py.float_binop. cbn [bind].
    destruct (Py.float_of_int tpb) as [t|]; [|discriminate]. cbn [bind Py.int].
    intros H. exists t. split; [reflexivity|]. now apply int_of_float_truncation.
Qed.

(** C4, as the code has it. For every note the encoder computes the start
    tick as [int(start_beat * ticks_per_beat)] -- the product truncated
    toward zero, not rounded to the nearest integer -- and the end tick as
    that start tick plus [int(duration_beats * ticks_per_beat)]: the events
    of the first loop are, note by note, a note-on at [s] and a note-off at
    [s + d] for such truncated [s] and [d]. *)
Theorem ticks_truncated (notes : list Note) (tpb : Z) (events : list event) :
  note_events notes tpb = Ok events ->
  exists sds : list (Z * Z),
    Forall2 (fun note sd =>
               truncated_ticks (start_beat note) tpb (fst sd) /\
               truncated_ticks (duration_beats note) tpb (snd sd)) notes sds /\
    events = all_events notes sds.
Proof.
  intros H. apply note_events_spec in H. destruct H as [sds [F ->]].
  exists sds. split; [|reflexivity].
  eapply Forall2_impl; [|exact F].
  intros n sd [Hs Hd]. split; now apply int_of_product_truncated.
Qed.

End Ticks.

(** C4 at a note that starts 1/512 beat in and lasts 511/512 beat, 480 ticks
    per beat: the ticks are [int(0.9375) = 0] and [int(479.0625) = 479]. *)
Lemma ticks_truncated_witness :
  let notes :=
    [ {| Midi.pitch := 60; Midi.start_beat := Py.PyFloat 0x1p-9;
         Midi.duration_beats := Py.PyFloat 0x1.ffp-1; Midi.velocity := 100 |} ] in
  let events := [ (0, "note_on", 60, 100); (479, "note_off", 60, 0) ] in
  Midi.note_events notes 480 = Ok events /\
  exists sds : list (Z * Z),
    Forall2 (fun note sd =>
               truncated_ticks (Midi.start_beat note) 480 (fst sd) /\
               truncated_ticks (Midi.duration_beats note) 480 (snd sd)) notes sds /\
    events = all_events notes sds.
Proof.
  intros notes events.
  assert (H : Midi.note_events notes 480 = Ok events) by (vm_compute; reflexivity).
  split; [exact H|]. exact (ticks_truncated notes 480 events H).
Defined.

(** C4, counterexample: 1/512 beat at 480 ticks per beat is 0.9375 ticks;
    the encoder's start tick is 0, the rounded value is 1. *)
Lemma start_tick_not_rounded :
  let note := {| Midi.pitch := 60; Midi.start_beat := Py.PyFloat 0x1p-9;
                 Midi.duration_beats := Py.PyFloat 1; Midi.velocity := 100 |} in
  Midi.start_ticks note 480 = Ok 0 /\
  rounded_ticks (Midi.start_beat note) 480 = Ok 1 /\
  Midi.start_ticks note 480 <> rounded_ticks (Midi.start_beat note) 480.
Proof.
  assert (A : Midi.start_ticks
                {| Midi.pitch := 60; Midi.start_beat := Py.PyFloat 0x1p-9;
                   Midi.duration_beats := Py.PyFloat 1; Midi.velocity := 100 |} 480 = Ok 0)
    by (vm_compute; reflexivity).
  assert (B : rounded_ticks (Py.PyFloat 0x1p-9) 480 = Ok 1) by (vm_compute; reflexivity).
  cbv zeta. cbn [Midi.start_beat]. rewrite A, B.
  repeat split. discriminate.
Qed.

Section Durations.

Import Midi.

(** An event whose pitch and velocity are data bytes. *)
Definition data_bytes (e : event) : Prop :=
  0 <= snd (fst e) <= 127 /\ 0 <= snd e <= 127.

Lemma key_le_tick (a b : event) :
  key_le (sort_key a) (sort_key b) = true -> event_tick a <= event_tick b.
Proof.
  unfold key_le, sort_key. cbn [fst snd].
  rewrite orb_true_iff, andb_true_iff, Z.ltb_lt, Z.eqb_eq. lia.
Qed.

(** Sorted events with data bytes, none before [cur], give messages with
    non-negative delta times. *)
Lemma delta_list_ok (events : list event) :
  StronglySorted (fun a b => key_le (sort_key a) (sort_key b) = true) events ->
  Forall data_bytes events ->
  forall cur, Forall (fun e => cur <= event_tick e) events ->
  exists ms, delta_list cur events = Ok ms /\
             List.length ms = List.length events /\
             forallb (fun m => 0 <=? Mido.msg_time m) ms = true.
Proof.
  induction 1 as [|e events S IH F]; intros B cur L.
  - exists []. repeat split.
  - inversion B as [|? ? [[P1 P2] [V1 V2]] B']; subst.
    inversion L as [|? ? L1 L']; subst.
    destruct e as [[[t ty] p] v]. cbn [fst snd event_tick] in *.
    destruct (IH B' t) as [ms [E [Len T]]].
    { eapply Forall_impl; [|exact F]. intros b Hb. apply key_le_tick in Hb. exact Hb. }
    cbn [delta_list]. unfold Mido.Message, Mido.data_byte.
    replace ((0 <=? p) && (p <=? 127)) with true
      by (symmetry; apply andb_true_iff; split; apply Z.leb_le; lia).
    replace ((0 <=? v) && (v <=? 127)) with true
      by (symmetry; apply andb_true_iff; split; apply Z.leb_le; lia).
    cbn [bind]. rewrite E. cbn [bind].
    eexists. split; [reflexivity|]. cbn [List.length forallb Mido.msg_time].
    split; [now rewrite Len|]. rewrite T.
    replace (0 <=? t - cur) with true by (symmetry; apply Z.leb_le; lia). reflexivity.
Qed.

Lemma all_events_length (notes : list Note) (sds : list (Z * Z)) :
  List.length notes = List.length sds ->
  List.length (all_events notes sds) = (2 * List.length notes)%nat.
Proof.
  revert sds. induction notes as [|n notes IH]; intros [|sd sds] H; try discriminate.
  - reflexivity.
  - unfold all_events. cbn [combine map List.concat events_of app List.length].
    injection H as H. apply IH in H. unfold all_events in H. rewrite H. lia.
Qed.

Lemma all_events_forall (P : event -> Prop) (notes : list Note) (sds : list (Z * Z)) :
  (forall n sd, In (n, sd) (combine notes sds) -> Forall P (events_of n sd)) ->
  Forall P (all_events notes sds).
Proof.
  intros H. unfold all_events. apply Forall_concat. apply Forall_map.
  apply Forall_forall. intros [n sd] I. apply H. exact I.
Qed.

(** C7, as the code has it. The encoder makes no check on durations: a
    note list whose ticks are computed and not negative, with pitches and
    velocities from 0 to 127 (and a tempo and a resolution the file format
    holds), is encoded and written, whatever the sign of the durations --
    two messages per note, the note-off at the start tick plus
    [int(duration_beats * ticks_per_beat)]. *)
Theorem durations_not_checked (p : string) (notes : list Note) (bpm tpb : Z)
  (w : world) (tempo : Z) (sds : list (Z * Z)) :
  Mido.bpm2tempo bpm = Ok tempo -> 0 <= tempo <= 16777215 ->
  -32768 <= tpb <= 32767 ->
  Forall2 (ticks_computed tpb) notes sds ->
  Forall (fun sd => 0 <= fst sd /\ 0 <= fst sd + snd sd) sds ->
  Forall (fun n => 0 <= pitch n <= 127 /\ 0 <= velocity n <= 127) notes ->
  exists track w',
    create_midi_file p notes bpm tpb w = (Ok tt, w') /\
    read_file w' p = Some (MidiData [Header 1 1 tpb; TrackChunk track]) /\
    List.length track = (2 * List.length notes + 2)%nat /\
    forall n sd, In (n, sd) (combine notes sds) ->
      exists i j d1 d2,
        nth_error (absolute 0 track) i
        = Some (fst sd, ChannelMessage "note_on" (pitch n) (velocity n) d1) /\
        nth_error (absolute 0 track) j
        = Some (fst sd + snd sd, ChannelMessage "note_off" (pitch n) 0 d2).
Proof.
  intros Ht Hr Htpb F Hpos Hbytes.
  pose proof (note_events_complete notes tpb sds F) as Ev.
  set (events := all_events notes sds) in *.
  assert (Hin : forall n sd, In (n, sd) (combine notes sds) ->
                  In n notes /\ In sd sds).
  { intros n sd I. split; [eapply in_combine_l|eapply in_combine_r]; exact I. }
  assert (B : Forall data_bytes events).
  { apply all_events_forall. intros n sd I. destruct (Hin n sd I) as [I1 _].
    rewrite Forall_forall in Hbytes. specialize (Hbytes n I1).
    unfold events_of, data_bytes. repeat constructor; cbn [fst snd]; lia. }
  assert (L : Forall (fun e => 0 <= event_tick e) events).
  { apply all_events_forall. intros n sd I. destruct (Hin n sd I) as [_ I2].
    rewrite Forall_forall in Hpos. specialize (Hpos sd I2).
    unfold events_of, event_tick. repeat constructor; cbn [fst snd]; lia. }
  pose proof (sort_by_perm key_le sort_key events) as Pm.
  destruct (delta_list_ok (sort_by key_le sort_key events)
              (sort_by_sorted key_le sort_key key_le_total key_le_trans events)
              (Permutation_Forall (Permutation_sym Pm) B) 0
              (Permutation_Forall (Permutation_sym Pm) L)) as [ms [D [Len T]]].
  set (track := (SetTempo tempo 0 :: ms ++ [EndOfTrack 0])%list).
  assert (Bt : build_track notes bpm tpb = Ok track).
  { unfold build_track. rewrite Ht. cbn [bind]. unfold Mido.MetaMessage_set_tempo.
    replace ((0 <=? tempo) && (tempo <=? 16777215)) with true
      by (symmetry; apply andb_true_iff; split; apply Z.leb_le; lia).
    cbn [bind]. rewrite Ev. cbn [bind]. unfold delta_messages.
    rewrite delta_messages_from. fold events. rewrite D. reflexivity. }
  assert (En : encoded events track) by (exists tempo, ms; split; [reflexivity|exact D]).
  assert (Sv : exists w', Mido.save {| Mido.ticks_per_beat := tpb; Mido.tracks := [track] |} p w
                          = (Ok tt, w')).
  { unfold Mido.save, io_bind. cbn [Mido.tracks Mido.ticks_per_beat List.length].
    replace (Mido.int16 (Z.of_nat 1) && Mido.int16 tpb) with true.
    2:{ symmetry. unfold Mido.int16. apply andb_true_iff.
        split; [reflexivity|]. apply andb_true_iff. split; apply Z.leb_le; lia. }
    cbn [io_for_each]. unfold io_bind, Mido.write_track.
    replace (forallb (fun m => 0 <=? Mido.msg_time m) track) with true.
    2:{ symmetry. unfold track. cbn [forallb Mido.msg_time].
        rewrite forallb_app, T. reflexivity. }
    unfold ret. eexists. reflexivity. }
  destruct Sv as [w' Sv].
  exists track, w'. split.
  { unfold create_midi_file, io_bind, lift. rewrite Bt. exact Sv. }
  split; [eapply save_inv; exact Sv|]. split.
  - unfold track. cbn [List.length]. rewrite length_app, Len.
    rewrite (Permutation_length Pm). unfold events.
    rewrite all_events_length by (eapply Forall2_length; exact F).
    cbn [List.length]. lia.
  - intros n sd I.
    destruct (encoded_event_present events track (fst sd, "note_on", pitch n, velocity n) En)
      as [i [d1 Hi]].
    { unfold events, all_events. apply in_concat. eexists. split.
      - apply in_map_iff. exists (n, sd). split; [reflexivity|exact I].
      - cbn. auto. }
    destruct (encoded_event_present events track (fst sd + snd sd, "note_off", pitch n, 0) En)
      as [j [d2 Hj]].
    { unfold events, all_events. apply in_concat. eexists. split.
      - apply in_map_iff. exists (n, sd). split; [reflexivity|exact I].
      - cbn. auto. }
    exists i, j, d1, d2. split; assumption.
Qed.

End Durations.

(** C7 at a note of duration zero. *)
Lemma durations_not_checked_witness :
  let notes :=
    [ {| Midi.pitch := 60; Midi.start_beat := Py.PyFloat 0;
         Midi.duration_beats := Py.PyFloat 0; Midi.velocity := 100 |} ] in
  let w := {| files := []; entropy := fun _ => 0; drawn := 0 |} in
  nonpositive (Py.PyFloat 0) = true /\
  exists track w',
    Midi.create_midi_file "out.mid" notes 120 480 w = (Ok tt, w') /\
    read_file w' "out.mid" = Some (MidiData [Header 1 1 480; TrackChunk track]) /\
    List.length track = (2 * List.length notes + 2)%nat /\
    forall n sd, In (n, sd) (combine notes [(0, 0)]) ->
      exists i j d1 d2,
        nth_error (absolute 0 track) i
        = Some (fst sd, ChannelMessage "note_on" (Midi.pitch n) (Midi.velocity n) d1) /\
        nth_error (absolute 0 track) j
        = Some (fst sd + snd sd, ChannelMessage "note_off" (Midi.pitch n) 0 d2).
Proof.
  intros notes w. split; [reflexivity|].
  apply (durations_not_checked "out.mid" notes 120 480 w 500000 [(0, 0)]).
  - vm_compute. reflexivity.
  - lia.
  - lia.
  - repeat constructor; vm_compute; reflexivity.
  - repeat constructor; cbn; lia.
  - repeat constructor; cbn; lia.
Defined.

(** C7, counterexample: a note list holding a note of duration zero is not
    rejected. The encoder returns without an error and the file holds the
    note, its note-off placed before its note-on at tick 0. *)
Lemma degenerate_note_encoded :
  let note := {| Midi.pitch := 60; Midi.start_beat := Py.PyFloat 0;
                 Midi.duration_beats := Py.PyFloat 0; Midi.velocity := 100 |} in
  let w := {| files := []; entropy := fun _ => 0; drawn := 0 |} in
  let r := Midi.create_midi_file "out.mid" [note] 120 480 w in
  nonpositive (Midi.duration_beats note) = true /\
  fst r = Ok tt /\
  read_file (snd r) "out.mid" =
    Some (MidiData [Header 1 1 480;
                    TrackChunk [SetTempo 500000 0;
                                ChannelMessage "note_off" 60 0 0;
                                ChannelMessage "note_on" 60 100 0;
                                EndOfTrack 0]]).
Proof. repeat split; vm_compute; reflexivity. Qed.

(* ===================================================================== *)
(** * Loading the project metadata                                        *)
(* ===================================================================== *)

(** The three directives of the first loop of [_load], recognised on the
    stripped line, and the value a [TEMPO] or [SAMPLERATE] line carries:
    its second word. *)
Definition tempo_directive (line : string) : bool :=
  Py.startswith "TEMPO " (Py.strip line).

Definition samplerate_directive (line : string) : bool :=
  Py.startswith "SAMPLERATE " (Py.strip line).

Definition render_file_directive (line : string) : bool :=
  Py.startswith "RENDER_FILE " (Py.strip line).

Definition directive_value (line : string) : option string :=
  match Py.split (Py.strip line) with
  | _ :: v :: _ => Some v
  | _ => None
  end.

(** The project [ReaperProject()] starts from, at path [p]. *)
Definition fresh_project (p : option string) : Rpp.ReaperProject :=
  {| Rpp.project_path := p; Rpp.tempo := Py.PyFloat 120;
     Rpp.time_signature := (4, 4); Rpp.sample_rate := 44100;
     Rpp.render_file := "render"; Rpp.tracks := []; Rpp._raw_lines := [] |}.

Section Metadata.

Import Rpp.

Lemma getitem_second {A : Type} (a b : A) (l : list A) :
  Py.getitem (a :: b :: l) 1 = Ok b.
Proof.
  unfold Py.getitem. cbn [List.length].
  replace (1 <? 0) with false by reflexivity.
  replace ((0 <=? 1) && (1 <? Z.of_nat (S (S (List.length l))))) with true.
  - reflexivity.
  - symmetry. apply andb_true_iff. split; [reflexivity|apply Z.ltb_lt; lia].
Qed.

Lemma prefix_first_char (c d : ascii) (a b : string) :
  c <> d -> String.prefix (String c a) (String d b) = false.
Proof.
  intros N. cbn [String.prefix]. destruct (Ascii.ascii_dec c d); [contradiction|reflexivity].
Qed.

(** The three directives exclude each other. *)
Lemma directives_disjoint (l : string) :
  (tempo_directive l = true -> samplerate_directive l = false /\ render_file_directive l = false) /\
  (samplerate_directive l = true -> render_file_directive l = false).
Proof.
  unfold tempo_directive, samplerate_directive, render_file_directive, Py.startswith.
  destruct (Py.strip l) as [|c s]; [split; discriminate|].
  destruct (Ascii.ascii_dec c "T") as [->|NT].
  - split; [intros _; split; apply prefix_first_char; discriminate|].
    rewrite prefix_first_char by discriminate. discriminate.
  - rewrite (prefix_first_char "T" c) by congruence. split; [discriminate|].
    destruct (Ascii.ascii_dec c "S") as [->|NS].
    + intros _. apply prefix_first_char. discriminate.
    + rewrite (prefix_first_char "S" c) by congruence. discriminate.
Qed.

(** What one line does to the project. *)
Lemma load_metadata_line_cases (self : ReaperProject) (l : string) :
  load_metadata_line self l =
  if tempo_directive l then
    match directive_value l with
    | Some v => x <- Py.float_of_str v ;; Ok (set_tempo self (Py.PyFloat x))
    | None => Ok self
    end
  else if samplerate_directive l then
    match directive_value l with
    | Some v => x <- Py.int_of_str v ;; Ok (set_sample_rate self x)
    | None => Ok self
    end
  else if render_file_directive l then
    match Lib.search_quoted (Py.strip l) with
    | Some g => Ok (set_render_file self g)
    | None => Ok self
    end
  else Ok self.
Proof.
  unfold load_metadata_line, tempo_directive, samplerate_directive,
    render_file_directive, directive_value.
  destruct (Py.startswith "TEMPO " (Py.strip l));
    [|destruct (Py.startswith "SAMPLERATE " (Py.strip l)); [|reflexivity]];
    destruct (Py.split (Py.strip l)) as [|a [|b r]]; try reflexivity;
    rewrite getitem_second;
    replace (2 <=? Z.of_nat (List.length (a :: b :: r))) with true
      by (symmetry; apply Z.leb_le; cbn [List.length]; lia);
    reflexivity.
Qed.

(** The first loop, from any project: it succeeds when the values of the
    [TEMPO] and [SAMPLERATE] lines are numbers, and a field no line sets
    keeps its value. *)
Lemma load_metadata_ok (lines : list string) :
  (forall l v, In l lines -> tempo_directive l = true -> directive_value l = Some v ->
               exists x, Py.float_of_str v = Ok x) ->
  (forall l v, In l lines -> samplerate_directive l = true -> directive_value l = Some v ->
               exists x, Py.int_of_str v = Ok x) ->
  forall self, exists self',
    for_each load_metadata_line lines self = Ok self' /\
    project_path self' = project_path self /\
    _raw_lines self' = _raw_lines self /\
    ((forall l, In l lines -> tempo_directive l = false) -> tempo self' = tempo self) /\
    ((forall l, In l lines -> samplerate_directive l = false) ->
     sample_rate self' = sample_rate self) /\
    ((forall l, In l lines -> render_file_directive l = true ->
                Lib.search_quoted (Py.strip l) = None) ->
     render_file self' = render_file self).
Proof.
  induction lines as [|l lines IH]; intros HT HS self.
  - exists self. cbn [for_each]. repeat split; reflexivity.
  - assert (HT' : forall l0 v, In l0 lines -> tempo_directive l0 = true ->
                    directive_value l0 = Some v -> exists x, Py.float_of_str v = Ok x)
      by (intros; eapply HT; eauto; now right).
    assert (HS' : forall l0 v, In l0 lines -> samplerate_directive l0 = true ->
                    directive_value l0 = Some v -> exists x, Py.int_of_str v = Ok x)
      by (intros; eapply HS; eauto; now right).
    specialize (IH HT' HS'). cbn [for_each].
    rewrite load_metadata_line_cases.
    pose proof (directives_disjoint l) as [DT DS].
    assert (Step : exists s1,
               (if tempo_directive l then
                  match directive_value l with
                  | Some v => x <- Py.float_of_str v ;; Ok (set_tempo self (Py.PyFloat x))
                  | None => Ok self
                  end
                else if samplerate_directive l then
                  match directive_value l with
                  | Some v => x <- Py.int_of_str v ;; Ok (set_sample_rate self x)
                  | None => Ok self
                  end
                else if render_file_directive l then
                  match Lib.search_quoted (Py.strip l) with
                  | Some g => Ok (set_render_file self g)
                  | None => Ok self
                  end
                else Ok self) = Ok s1 /\
               project_path s1 = project_path self /\
               _raw_lines s1 = _raw_lines self /\
               (tempo_directive l = false -> tempo s1 = tempo self) /\
               (samplerate_directive l = false -> sample_rate s1 = sample_rate self) /\
               ((render_file_directive l = true -> Lib.search_quoted (Py.strip l) = None) ->
                render_file s1 = render_file self)).
    { destruct (tempo_directive l) eqn:ET.
      - destruct (directive_value l) as [v|] eqn:EV.
        + destruct (HT l v (or_introl eq_refl) ET EV) as [x ->]. cbn [bind].
          eexists. split; [reflexivity|]. repeat split; try reflexivity. discriminate.
        + exists self. repeat split; reflexivity.
      - destruct (samplerate_directive l) eqn:ES.
        + destruct (directive_value l) as [v|] eqn:EV.
          * destruct (HS l v (or_introl eq_refl) ES EV) as [x ->]. cbn [bind].
            eexists. split; [reflexivity|]. repeat split; try reflexivity. discriminate.
          * exists self. repeat split; reflexivity.
        + destruct (render_file_directive l) eqn:ER.
          * destruct (Lib.search_quoted (Py.strip l)) as [g|] eqn:EQ.
            -- eexists. split; [reflexivity|]. repeat split; try reflexivity.
               intros H. specialize (H eq_refl). discriminate.
            -- exists self. repeat split; reflexivity.
          * exists self. repeat split; reflexivity. }
    destruct Step as [s1 [-> [P1 [R1 [T1 [S1 Q1]]]]]]. cbn [bind].
    destruct (IH s1) as [s2 [E [P2 [R2 [T2 [S2 Q2]]]]]].
    exists s2. split; [exact E|].
    split; [congruence|]. split; [congruence|]. split; [|split].
    + intros H. rewrite T2 by (intros l0 I; apply H; now right).
      apply T1. apply H. now left.
    + intros H. rewrite S2 by (intros l0 I; apply H; now right).
      apply S1. apply H. now left.
    + intros H. rewrite Q2 by (intros l0 I D; apply H; [now right|exact D]).
      apply Q1. intros D. apply H; [now left|exact D].
Qed.

(** The second loop raises nothing. *)
Lemma load_tracks_total (lines : list string) :
  forall st w, exists st' w', io_for_each load_track_line lines st w = (Ok st', w').
Proof.
  induction lines as [|l lines IH]; intros st w; cbn [io_for_each].
  - unfold ret. eauto.
  - unfold io_bind at 1.
    assert (Step : exists st1 w1, load_track_line st l w = (Ok st1, w1)).
    { unfold load_track_line.
      destruct (Py.startswith "<TRACK" (Py.strip l)).
      - unfold io_bind. destruct (Lib.search_braced (Py.strip l));
          unfold ret, Lib.uuid4; eauto.
      - destruct (in_track st && Py.startswith "NAME " (Py.strip l)).
        + destruct (Lib.search_quoted (Py.strip l)), (current_track st); unfold ret; eauto.
        + destruct (in_track st && String.eqb (Py.strip l) ">"); unfold ret; eauto. }
    destruct Step as [st1 [w1 ->]]. apply IH.
Qed.

End Metadata.

Section MetadataDefaults.

Import Rpp.

(** C9, as the code has it. Loading a project text succeeds when every
    [TEMPO] line carries a value [float] accepts and every [SAMPLERATE] line
    one [int] accepts; then a field whose directive is absent keeps its
    default -- tempo 120, sample rate 44100 -- and the render target keeps
    "render" when no [RENDER_FILE] line holds a quoted string. (A [TEMPO] or
    [SAMPLERATE] line with another value is not tolerated: the conversion
    raises.) *)
Theorem metadata_defaults (p s : string) (w : world) :
  read_file w p = Some (TextFile s) ->
  let lines := Lib.lines_of (Lib.universal_newlines s) in
  (forall l v, In l lines -> tempo_directive l = true -> directive_value l = Some v ->
               exists x, Py.float_of_str v = Ok x) ->
  (forall l v, In l lines -> samplerate_directive l = true -> directive_value l = Some v ->
               exists x, Py.int_of_str v = Ok x) ->
  exists proj w',
    Rpp.load p w = (Ok proj, w') /\
    ((forall l, In l lines -> tempo_directive l = false) ->
     tempo proj = Py.PyFloat 120) /\
    ((forall l, In l lines -> samplerate_directive l = false) ->
     sample_rate proj = 44100) /\
    ((forall l, In l lines -> render_file_directive l = true ->
                Lib.search_quoted (Py.strip l) = None) ->
     render_file proj = "render").
Proof.
  intros R lines HT HS.
  unfold load, __init__, io_bind, Lib.exists_. rewrite R.
  unfold _load, io_bind, Lib.readlines. rewrite R. fold lines. unfold lift.
  destruct (load_metadata_ok lines HT HS
              (set_raw_lines
                 (set_path
                    {| project_path := Some p; tempo := Py.PyFloat 120;
                       time_signature := (4, 4); sample_rate := 44100;
                       render_file := "render"; tracks := []; _raw_lines := [] |}
                    (Some p)) lines))
    as [self' [E [_ [_ [T [S Q]]]]]].
  rewrite E.
  destruct (load_tracks_total lines
              {| scanned := []; in_track := false; current_track := None; track_idx := 0 |} w)
    as [st' [w' L]].
  rewrite L. unfold ret.
  eexists. exists w'. split; [reflexivity|].
  cbn [tempo sample_rate render_file set_tracks] in *.
  repeat split; intros H; [apply T|apply S|apply Q]; exact H.
Qed.

End MetadataDefaults.

(** C9 at a text with a sample rate, no [TEMPO] line and a [RENDER_FILE]
    line without quotes. *)
Lemma metadata_defaults_witness :
  let s := "<REAPER_PROJECT 0.1" ++ nl ++ "  SAMPLERATE 48000 0 0" ++ nl
           ++ "  RENDER_FILE out" ++ nl ++ ">" ++ nl in
  let w := {| files := [("song.rpp", TextFile s)]; entropy := fun _ => 0; drawn := 0 |} in
  let lines := Lib.lines_of (Lib.universal_newlines s) in
  (forall l, In l lines -> tempo_directive l = false) /\
  (forall l, In l lines -> render_file_directive l = true ->
             Lib.search_quoted (Py.strip l) = None) /\
  exists proj w',
    Rpp.load "song.rpp" w = (Ok proj, w') /\
    ((forall l, In l lines -> tempo_directive l = false) ->
     Rpp.tempo proj = Py.PyFloat 120) /\
    ((forall l, In l lines -> samplerate_directive l = false) ->
     Rpp.sample_rate proj = 44100) /\
    ((forall l, In l lines -> render_file_directive l = true ->
                Lib.search_quoted (Py.strip l) = None) ->
     Rpp.render_file proj = "render").
Proof.
  intros s w lines.
  assert (L : lines = [ ("<REAPER_PROJECT 0.1" ++ nl)%string;
                        ("  SAMPLERATE 48000 0 0" ++ nl)%string;
                        ("  RENDER_FILE out" ++ nl)%string; (">" ++ nl)%string ])
    by (vm_compute; reflexivity).
  split; [|split].
  - rewrite L. intros l [<-|[<-|[<-|[<-|[]]]]]; vm_compute; reflexivity.
  - rewrite L. intros l [<-|[<-|[<-|[<-|[]]]]] D;
      solve [vm_compute in D; discriminate D | vm_compute; reflexivity].
  - apply (metadata_defaults "song.rpp" s w).
    + vm_compute. reflexivity.
    + fold lines. rewrite L.
      intros l v [<-|[<-|[<-|[<-|[]]]]] D _; vm_compute in D; discriminate D.
    + fold lines. rewrite L.
      intros l v [<-|[<-|[<-|[<-|[]]]]] D V;
        try (vm_compute in D; discriminate D).
      vm_compute in V. injection V as <-. exists 48000. vm_compute. reflexivity.
Defined.

(** C9, counterexample: a [TEMPO] line whose value is not a number. The
    parse does not fall back to tempo 120; [float] raises and loading fails.
    The same holds for a [SAMPLERATE] line that [int] does not accept. *)
Lemma malformed_tempo_fails :
  let w := fun s => {| files := [("song.rpp", TextFile s)];
                       entropy := fun _ => 0; drawn := 0 |} in
  tempo_directive ("  TEMPO fast 4 4" ++ nl) = true /\
  Py.float_of_str "fast" = Raise (ValueError "could not convert string to float: 'fast'") /\
  fst (Rpp.load "song.rpp" (w ("<REAPER_PROJECT 0.1" ++ nl ++ "  TEMPO fast 4 4" ++ nl ++ ">" ++ nl)))
  = Raise (ValueError "could not convert string to float: 'fast'") /\
  fst (Rpp.load "song.rpp" (w ("<REAPER_PROJECT 0.1" ++ nl ++ "  SAMPLERATE 44.1k 0 0" ++ nl ++ ">" ++ nl)))
  = Raise (ValueError "invalid literal for int() with base 10: '44.1k'").
Proof. repeat split; vm_compute; reflexivity. Qed.

(* ===================================================================== *)
(** * Serialization and the fresh identifiers                             *)
(* ===================================================================== *)




(** The text of a project none of whose tracks owns an item. *)
Definition plain_text (self : Rpp.ReaperProject) : list string :=
  (Rpp.project_head_lines self
   ++ List.concat (map (fun t => Rpp.track_head_lines t ++ [("  >" ++ nl)%string])
                     (Rpp.tracks self))
   ++ [(">" ++ nl)%string])%list.

Section Serialization.

Import Rpp.









(** Without items no identifier is drawn. *)
Lemma extend_tracks_plain (ts : list Track) :
  Forall (fun t => midi_items t = []) ts ->
  forall lines w,
    extend_each (fun track => _generate_track track true) ts lines w
    = (Ok (lines ++ List.concat (map (fun t => track_head_lines t
                                               ++ [("  >" ++ nl)%string]) ts))%list, w).
Proof.
  unfold extend_each.
  induction 1 as [|t ts Ht F IH]; intros lines w; cbn [io_for_each map List.concat].
  - unfold ret. now rewrite List.app_nil_r.
  - unfold io_bind at 1. unfold io_bind at 1.
    unfold _generate_track. rewrite Ht. cbn [List.length Nat.eqb negb andb].
    unfold extend_each. cbn [io_for_each]. unfold io_bind, ret.
    rewrite IH. now rewrite <- List.app_assoc.
Qed.


End Serialization.

(** C2, counterexample: a project with one track that owns one item,
    serialized twice in a row. Each identifier drawn is new (here the
    random source yields 0, 1, 2, ...), so the second text is not the first:
    their [FXID] lines already differ. *)
Lemma serialize_twice_differs :
  let self :=
    {| Rpp.project_path := Some "song.rpp"; Rpp.tempo := Py.PyInt 128;
       Rpp.time_signature := (4, 4); Rpp.sample_rate := 44100;
       Rpp.render_file := "render";
       Rpp.tracks :=
         [ {| Rpp.name := "Drums"; Rpp.index := 0;
              Rpp.guid := "6f1c2a9e-0d4b-4c7a-9b1e-2f3a4b5c6d7e";
              Rpp.midi_items :=
                [ {| Rpp.path := "midi/drums.mid"; Rpp.position := Py.PyFloat 0;
                     Rpp.length := Py.PyFloat 8 |} ] |} ];
       Rpp._raw_lines := [] |} in
  let w := {| files := []; entropy := fun n => Z.of_nat n; drawn := 0 |} in
  let first := Rpp._generate_new_project self w in
  let second := Rpp._generate_new_project self (snd first) in
  fst first <> fst second.
Proof.
  intros self w first second H.
  apply (f_equal (fun r => match r with
                           | Ok l => nth_error l 49
                           | Raise _ => None
                           end)) in H.
  vm_compute in H. discriminate.
Qed.

(* ===================================================================== *)
(** * Lines of text                                                       *)
(* ===================================================================== *)

Definition line_break (c : ascii) : bool := Ascii.eqb c LF || Ascii.eqb c CR.


(** A line as [readlines] returns it: no line break but the line feed that
    ends it. *)
Fixpoint whole_line (l : string) : bool :=
  match l with
  | EmptyString => false
  | String c l' =>
      match l' with
      | EmptyString => Ascii.eqb c LF
      | String _ _ => negb (line_break c) && whole_line l'
      end
  end.


Section Lines.




Lemma whole_line_nonempty (l : string) : whole_line l = true -> l <> "".
Proof. destruct l; [discriminate|discriminate]. Qed.








End Lines.

(* ===================================================================== *)
(** * Further properties of the encoder                                   *)
(* ===================================================================== *)

Section EncoderMore.

Import Midi.

(** A pitch that [note_name_to_midi] returns is a MIDI note number. *)
Theorem note_name_to_midi_range (name : string) (p : Z) :
  note_name_to_midi name = Ok p -> 0 <= p <= 127.
Proof.
  unfold note_name_to_midi, invalid_note_name. cbv zeta.
  destruct (Py.len _ <? 2); [discriminate|].
  destruct (if String.eqb _ "#" then _ else _) as [np op].
  destruct (if Py.contains "b" op then _ else _) as [[np' op']|e];
    cbn [bind]; [|discriminate].
  destruct (Py.index (Py.upper np') NOTE_NAMES) as [idx|[]]; cbn [bind];
    try discriminate.
  destruct (Py.int_of_str op') as [oct|[]]; cbn [bind]; try discriminate.
  destruct (negb _) eqn:E; [discriminate|].
  intros [= <-]. apply negb_false_iff, andb_true_iff in E.
  destruct E as [E1 E2]. apply Z.leb_le in E1, E2. lia.
Qed.

Lemma note_name_to_midi_range_witness :
  note_name_to_midi "F#3" = Ok 54 /\ 0 <= 54 <= 127.
Proof.
  assert (H : note_name_to_midi "F#3" = Ok 54) by (vm_compute; reflexivity).
  split; [exact H|]. exact (note_name_to_midi_range "F#3" 54 H).
Defined.

(** The only error of the second loop is the data-byte error. *)
Lemma delta_list_error (events : list event) :
  forall cur e, delta_list cur events = Raise e ->
                e = ValueError "data byte must be in range 0..127".
Proof.
  induction events as [|[[[t ty] p] v] events IH]; intros cur e H; cbn [delta_list] in H.
  - discriminate.
  - unfold Mido.Message, Mido.data_byte in H.
    destruct ((0 <=? p) && (p <=? 127)); cbn [bind] in H; [|now injection H as <-].
    destruct ((0 <=? v) && (v <=? 127)); cbn [bind] in H; [|now injection H as <-].
    destruct (delta_list t events) as [ms|e'] eqn:E; cbn [bind] in H; [discriminate|].
    injection H as <-. now apply (IH t).
Qed.

(** Messages are made only of events whose pitch and velocity are data
    bytes. *)
Lemma delta_list_bytes (events : list event) :
  forall cur ms, delta_list cur events = Ok ms -> Forall data_bytes events.
Proof.
  induction events as [|[[[t ty] p] v] events IH]; intros cur ms H; cbn [delta_list] in H.
  - constructor.
  - unfold Mido.Message, Mido.data_byte in H.
    destruct ((0 <=? p) && (p <=? 127)) eqn:P; cbn [bind] in H; [|discriminate].
    destruct ((0 <=? v) && (v <=? 127)) eqn:V; cbn [bind] in H; [|discriminate].
    destruct (delta_list t events) as [ms'|] eqn:E; [|discriminate].
    constructor; [|now apply (IH t ms')].
    apply andb_true_iff in P, V. unfold data_bytes. cbn [fst snd].
    destruct P as [P1 P2], V as [V1 V2]. apply Z.leb_le in P1, P2, V1, V2. lia.
Qed.






End EncoderMore.

Section EncoderErrors.

Import Midi.

Lemma build_track_raise (notes : list Note) (bpm tpb : Z) (e : exception) (w : world)
  (p : string) :
  build_track notes bpm tpb = Raise e ->
  create_midi_file p notes bpm tpb w = (Raise e, w).
Proof. intros H. unfold create_midi_file, io_bind, lift. now rewrite H. Qed.

(** A pitch or a velocity outside 0..127 is refused before anything is
    written: when the tempo is valid and the ticks of the notes can be
    computed, a note list holding such a note makes the encoder raise the
    data-byte [ValueError], and the files are as they were. *)
Theorem data_byte_checked_before_writing (p : string) (notes : list Note)
  (bpm tpb tempo : Z) (sds : list (Z * Z)) (w : world) :
  Mido.bpm2tempo bpm = Ok tempo -> 0 <= tempo <= 16777215 ->
  Forall2 (ticks_computed tpb) notes sds ->
  (exists n, In n notes /\
             (pitch n < 0 \/ 127 < pitch n \/ velocity n < 0 \/ 127 < velocity n)) ->
  create_midi_file p notes bpm tpb w
  = (Raise (ValueError "data byte must be in range 0..127"), w).
Proof.
  intros Ht Hr F [n [In_n Bad]].
  apply build_track_raise. unfold build_track. rewrite Ht. cbn [bind].
  unfold Mido.MetaMessage_set_tempo.
  replace ((0 <=? tempo) && (tempo <=? 16777215)) with true
    by (symmetry; apply andb_true_iff; split; apply Z.leb_le; lia).
  cbn [bind]. rewrite (note_events_complete notes tpb sds F). cbn [bind].
  unfold delta_messages. rewrite delta_messages_from.
  destruct (delta_list 0 (sort_by key_le sort_key (all_events notes sds)))
    as [ms|e] eqn:D; cbn [bind].
  - exfalso. apply delta_list_bytes in D.
    assert (B : Forall data_bytes (all_events notes sds))
      by (eapply Permutation_Forall; [apply (sort_by_perm key_le sort_key)|exact D]).
    destruct (note_events_in tpb notes sds n F In_n) as [sd [_ I]].
    rewrite Forall_forall in B.
    specialize (B (fst sd, "note_on", pitch n, velocity n) (I _ (or_introl eq_refl))).
    unfold data_bytes in B. cbn [fst snd] in B. lia.
  - now rewrite (delta_list_error _ _ _ D).
Qed.

Lemma data_byte_checked_before_writing_witness :
  let notes :=
    [ {| Midi.pitch := 60; Midi.start_beat := Py.PyInt 0;
         Midi.duration_beats := Py.PyInt 1; Midi.velocity := 100 |};
      {| Midi.pitch := 128; Midi.start_beat := Py.PyInt 1;
         Midi.duration_beats := Py.PyInt 1; Midi.velocity := 100 |} ] in
  let w := {| files := [("old.mid", MidiData [])]; entropy := fun _ => 0; drawn := 0 |} in
  Midi.create_midi_file "new.mid" notes 120 480 w
  = (Raise (ValueError "data byte must be in range 0..127"), w).
Proof.
  intros notes w.
  apply (data_byte_checked_before_writing "new.mid" notes 120 480 500000
           [(0, 480); (480, 480)] w).
  - vm_compute. reflexivity.
  - lia.
  - repeat constructor.
  - exists {| Midi.pitch := 128; Midi.start_beat := Py.PyInt 1;
              Midi.duration_beats := Py.PyInt 1; Midi.velocity := 100 |}.
    split; [cbn; auto|]. cbn. lia.
Defined.

Lemma read_write_other (w : world) (p f : string) (x : file) :
  f <> p -> read_file (write_file w p x) f = read_file w f.
Proof.
  intros Hf. unfold read_file, write_file. cbn [files lookup].
  assert (E : String.eqb p f = false) by (apply String.eqb_neq; congruence).
  rewrite E. induction (files w) as [|[k v] l IH]; [reflexivity|].
  cbn [filter fst lookup].
  destruct (String.eqb k p) eqn:K; cbn [negb lookup].
  - apply String.eqb_eq in K. subst k. now rewrite E.
  - now rewrite IH.
Qed.

(** An empty note list gives a silent file: the header, the tempo event
    and the end of the track. *)
Theorem empty_note_list_silent_file (p : string) (bpm tpb tempo : Z) (w : world) :
  Mido.bpm2tempo bpm = Ok tempo -> 0 <= tempo <= 16777215 ->
  -32768 <= tpb <= 32767 ->
  exists w',
    create_midi_file p [] bpm tpb w = (Ok tt, w') /\
    read_file w' p
    = Some (MidiData [Header 1 1 tpb; TrackChunk [SetTempo tempo 0; EndOfTrack 0]]) /\
    (forall f, f <> p -> read_file w' f = read_file w f).
Proof.
  intros Ht Hr Htpb.
  unfold create_midi_file, io_bind, lift, build_track. rewrite Ht. cbn [bind].
  unfold Mido.MetaMessage_set_tempo.
  replace ((0 <=? tempo) && (tempo <=? 16777215)) with true
    by (symmetry; apply andb_true_iff; split; apply Z.leb_le; lia).
  cbn [bind note_events for_each sort_by fold_right delta_messages snd app].
  unfold Mido.save, io_bind. cbn [Mido.tracks Mido.ticks_per_beat List.length].
  replace (Mido.int16 (Z.of_nat 1) && Mido.int16 tpb) with true.
  2:{ symmetry. unfold Mido.int16. apply andb_true_iff.
      split; [reflexivity|]. apply andb_true_iff. split; apply Z.leb_le; lia. }
  cbn [io_for_each]. unfold io_bind, Mido.write_track.
  cbn [forallb Mido.msg_time Z.leb Z.compare andb app]. unfold ret.
  eexists. split; [reflexivity|]. split.
  - now rewrite read_write_file.
  - intros f Hf. now rewrite !read_write_other by exact Hf.
Qed.

Lemma empty_note_list_silent_file_witness :
  let w := {| files := []; entropy := fun _ => 0; drawn := 0 |} in
  exists w',
    Midi.create_midi_file "silence.mid" [] 90 480 w = (Ok tt, w') /\
    read_file w' "silence.mid"
    = Some (MidiData [Header 1 1 480; TrackChunk [SetTempo 666667 0; EndOfTrack 0]]) /\
    (forall f, f <> "silence.mid" -> read_file w' f = read_file w f).
Proof.
  intros w. apply (empty_note_list_silent_file "silence.mid" 90 480 666667 w).
  - vm_compute. reflexivity.
  - lia.
  - lia.
Defined.

End EncoderErrors.

(* ===================================================================== *)
(** * Drum patterns and chord progressions: the notes                     *)
(* ===================================================================== *)

(** A hit of the drum [name] of a pattern: a note of the drum's pitch, the
    given velocity and a tenth of a beat, at a beat of the drum's list
    within one of the bars. *)
Definition drum_hit (pattern : list (string * list Py.number)) (bars velocity : Z)
  (n : Midi.Note) : Prop :=
  exists name beats bar beat,
    In (name, beats) pattern /\ In beat beats /\ 0 <= bar < bars /\
    lookup name Midi.GM_DRUMS = Some (Midi.pitch n) /\
    Py.add (Py.PyInt (bar * 4)) beat = Ok (Midi.start_beat n) /\
    Midi.duration_beats n = Py.PyFloat 0x1.999999999999ap-4 /\
    Midi.velocity n = velocity.

Section Collect.

Context {A B : Type}.

(** A loop whose body appends to its list appends, in all, what the rounds
    append. *)
Lemma for_each_collect (body : list B -> A -> result (list B))
  (Q : A -> list B -> Prop) (l : list A) :
  (forall acc x, In x l -> exists new, body acc x = Ok (acc ++ new)%list /\ Q x new) ->
  forall acc, exists news : list (list B),
    for_each body l acc = Ok (acc ++ List.concat news)%list /\ Forall2 Q l news.
Proof.
  induction l as [|x l IH]; intros H acc; cbn [for_each].
  - exists []. cbn. rewrite List.app_nil_r. split; [reflexivity|constructor].
  - destruct (H acc x (or_introl eq_refl)) as [new [E Qx]]. rewrite E. cbn [bind].
    destruct (IH (fun a y Hy => H a y (or_intror Hy)) (acc ++ new)%list) as [news [E' F]].
    exists (new :: news). cbn [List.concat]. rewrite E', <- List.app_assoc.
    split; [reflexivity|now constructor].
Qed.

Lemma concat_forall (P : B -> Prop) (Q : A -> list B -> Prop) (l : list A)
  (news : list (list B)) :
  Forall2 Q l news -> (forall x new, In x l -> Q x new -> Forall P new) ->
  Forall P (List.concat news).
Proof.
  induction 1 as [|x new l news Hq F IH]; intros H; cbn [List.concat]; [constructor|].
  apply Forall_app. split.
  - apply (H x new); [now left|exact Hq].
  - apply IH. intros y n Hy. apply H. now right.
Qed.

Lemma concat_length (k : nat) (Q : A -> list B -> Prop) (l : list A)
  (news : list (list B)) :
  Forall2 Q l news -> (forall x new, In x l -> Q x new -> List.length new = k) ->
  List.length (List.concat news) = (List.length l * k)%nat.
Proof.
  induction 1 as [|x new l news Hq F IH]; intros H; cbn [List.concat List.length];
    [reflexivity|].
  rewrite length_app, (H x new (or_introl eq_refl) Hq), IH; [lia|].
  intros y n Hy. apply H. now right.
Qed.

Lemma concat_length_sum (f : A -> nat) (Q : A -> list B -> Prop) (l : list A)
  (news : list (list B)) :
  Forall2 Q l news -> (forall x new, Q x new -> List.length new = f x) ->
  List.length (List.concat news) = list_sum (map f l).
Proof.
  intros F H. unfold list_sum. induction F as [|x new l news Hq F IH]; [reflexivity|].
  cbn [List.concat map fold_right]. now rewrite length_app, (H x new Hq), IH.
Qed.

Lemma list_sum_scaled (k : nat) (f : A -> nat) (l : list A) :
  list_sum (map (fun x => k * f x)%nat l) = (k * list_sum (map f l))%nat.
Proof.
  unfold list_sum. induction l as [|x l IH]; cbn [map fold_right]; [lia|].
  now rewrite IH, Nat.mul_add_distr_l.
Qed.

End Collect.

Section DrumNotes.

Import Midi.

Lemma range_length (n : Z) : List.length (range n) = Z.to_nat n.
Proof. unfold range. now rewrite length_map, length_seq. Qed.

(** The hits of one drum: one note per bar and beat. *)
Lemma drum_hits_spec (name : string) (beats : list Py.number) (p bars velocity : Z)
  (pattern : list (string * list Py.number)) :
  bars < 2 ^ 64 -> In (name, beats) pattern -> lookup name GM_DRUMS = Some p ->
  forall acc, exists new,
    drum_hits p velocity bars beats acc = Ok (acc ++ new)%list /\
    List.length new = (Z.to_nat bars * List.length beats)%nat /\
    Forall (drum_hit pattern bars velocity) new.
Proof.
  intros Hb Hin Hp acc. unfold drum_hits.
  destruct (for_each_collect
              (fun (notes : list Note) (bar : Z) =>
                 let bar_offset := bar * 4 in
                 for_each
                   (fun (notes : list Note) (beat : Py.number) =>
                      start <- Py.add (Py.PyInt bar_offset) beat ;;
                      Ok (notes ++ [{| pitch := p; start_beat := start;
                                       duration_beats := Py.PyFloat 0x1.999999999999ap-4;
                                       velocity := velocity |}])%list)
                   beats notes)
              (fun bar new => List.length new = List.length beats /\
                              Forall (drum_hit pattern bars velocity) new)
              (range bars)) with (acc := acc) as [news [E F]].
  { intros a bar Hbar. apply range_bounds in Hbar. cbv zeta.
    destruct (for_each_collect
                (fun (notes : list Note) (beat : Py.number) =>
                   start <- Py.add (Py.PyInt (bar * 4)) beat ;;
                   Ok (notes ++ [{| pitch := p; start_beat := start;
                                    duration_beats := Py.PyFloat 0x1.999999999999ap-4;
                                    velocity := velocity |}])%list)
                (fun beat new => List.length new = 1%nat /\
                                 Forall (drum_hit pattern bars velocity) new)
                beats) with (acc := a) as [ns [E F]].
    { intros a' beat Hbeat.
      assert (S : exists start, Py.add (Py.PyInt (bar * 4)) beat = Ok start).
      { destruct beat as [z|f]; cbn [Py.add bind]; [eauto|].
        unfold Py.float_binop.
        destruct (float_of_int_ok (bar * 4)) as [x Ex].
        { assert (2 ^ 66 < 2 ^ 500) by (apply Z.pow_lt_mono_r; lia).
          assert (2 ^ 66 = 4 * 2 ^ 64) by reflexivity. lia. }
        rewrite Ex. cbn [bind]. eauto. }
      destruct S as [start S]. rewrite S. cbn [bind].
      eexists. split; [reflexivity|]. split; [reflexivity|].
      constructor; [|constructor].
      exists name, beats, bar, beat. cbn [pitch start_beat duration_beats Midi.velocity].
      repeat split; auto; lia. }
    exists (List.concat ns). split; [exact E|]. split.
    - rewrite (concat_length 1 _ _ _ F) by (intros ? ? _ [L _]; exact L). lia.
    - apply (concat_forall _ _ _ _ F). intros ? ? _ [_ G]. exact G. }
  exists (List.concat news). split; [exact E|]. split.
  - rewrite (concat_length (List.length beats) _ _ _ F) by (intros ? ? _ [L _]; exact L).
    now rewrite range_length.
  - apply (concat_forall _ _ _ _ F). intros ? ? _ [_ G]. exact G.
Qed.

(** With every drum of the pattern in [GM_DRUMS], the generator builds, for
    each drum, one note per bar and per beat of its list, and nothing else:
    as many notes as bars times beats, each a hit of a drum of the pattern.
    No bars, no notes. *)
Theorem drum_notes_are_hits (pattern : list (string * list Py.number))
  (bars velocity : Z) :
  bars < 2 ^ 64 ->
  (forall d, In d (map fst pattern) -> lookup d GM_DRUMS <> None) ->
  exists notes,
    drum_notes pattern bars velocity = Ok notes /\
    List.length notes
    = (Z.to_nat bars * list_sum (map (fun it => List.length (snd it)) pattern))%nat /\
    Forall (drum_hit pattern bars velocity) notes.
Proof.
  intros Hb Hk. unfold drum_notes.
  destruct (for_each_collect (drum_item bars velocity)
              (fun it new =>
                 List.length new = (Z.to_nat bars * List.length (snd it))%nat /\
                 Forall (drum_hit pattern bars velocity) new)
              pattern) with (acc := @nil Note) as [news [E F]].
  { intros acc [name beats] Hin. unfold drum_item.
    destruct (lookup name GM_DRUMS) as [p|] eqn:L.
    - apply (drum_hits_spec name beats p bars velocity pattern Hb Hin L).
    - exfalso. apply (Hk name); [|exact L].
      apply in_map_iff. exists (name, beats). split; [reflexivity|exact Hin]. }
  exists (List.concat news). split; [exact E|]. split.
  - rewrite (concat_length_sum
               (fun it => (Z.to_nat bars * List.length (snd it))%nat) _ _ _ F)
      by (intros ? ? [L _]; exact L).
    apply list_sum_scaled.
  - apply (concat_forall _ _ _ _ F). intros ? ? _ [_ G]. exact G.
Qed.

Lemma drum_notes_are_hits_witness :
  let pattern := [("kick", [Py.PyInt 0; Py.PyInt 2]); ("snare", [Py.PyInt 1; Py.PyFloat 3])] in
  exists notes,
    Midi.drum_notes pattern 2 100 = Ok notes /\
    List.length notes
    = (Z.to_nat 2 * list_sum (map (fun it => List.length (snd it)) pattern))%nat /\
    Forall (drum_hit pattern 2 100) notes.
Proof.
  intros pattern. apply (drum_notes_are_hits pattern 2 100).
  - reflexivity.
  - intros d [<-|[<-|[]]]; discriminate.
Defined.

End DrumNotes.

(* ===================================================================== *)
(** * Integers as text                                                    *)
(* ===================================================================== *)

(** Every character of [s] satisfies [P]. *)
Fixpoint all_chars (P : ascii -> bool) (s : string) : bool :=
  match s with
  | EmptyString => true
  | String c s' => P c && all_chars P s'
  end.

(** A character of the text of an integer: a digit or the minus sign. *)
Definition int_char (c : ascii) : bool := Py.isdigit c || Ascii.eqb c "-".

Section IntText.

Ltac by_cases_on c :=
  destruct c as [[] [] [] [] [] [] [] []]; vm_compute; intros; congruence.


Lemma all_chars_impl (P Q : ascii -> bool) (s : string) :
  (forall c, P c = true -> Q c = true) -> all_chars P s = true -> all_chars Q s = true.
Proof.
  intros H. induction s as [|c s IH]; cbn [all_chars]; [reflexivity|].
  intros E. apply andb_true_iff in E. destruct E as [E1 E2].
  now rewrite (H c E1), (IH E2).
Qed.

Lemma all_digits_all_chars (s : string) : Py.all_digits s = all_chars Py.isdigit s.
Proof. induction s as [|c s IH]; cbn; congruence. Qed.

Lemma digit_not_space (c : ascii) : Py.isdigit c = true -> Py.isspace c = false.
Proof. by_cases_on c. Qed.

Lemma int_char_not_space (c : ascii) : int_char c = true -> Py.isspace c = false.
Proof. by_cases_on c. Qed.

Lemma digit_not_underscore (c : ascii) : Py.isdigit c = true -> Ascii.eqb c "_" = false.
Proof. by_cases_on c. Qed.

Lemma split_sign_digit (c : ascii) (s : string) :
  Py.isdigit c = true -> Py.split_sign (String c s) = (false, String c s).
Proof. by_cases_on c. Qed.

Lemma string_of_uint_digits (d : Decimal.uint) :
  Py.all_digits (NilEmpty.string_of_uint d) = true.
Proof. induction d; cbn [NilEmpty.string_of_uint Py.all_digits]; auto. Qed.

Lemma string_of_uint_nonempty (d : Decimal.uint) :
  d <> Decimal.Nil -> NilEmpty.string_of_uint d <> "".
Proof. destruct d; cbn; congruence. Qed.

(** The text of an integer: digits, after a minus sign when negative. *)
Lemma str_of_int_shape (z : Z) :
  exists ds, Py.all_digits ds = true /\ ds <> "" /\ Py.digits_value ds = Z.abs z /\
             Py.str_of_int z = if z <? 0 then String "-" ds else ds.
Proof.
  assert (V : forall p, Py.digits_value (NilEmpty.string_of_uint (Pos.to_uint p)) = Zpos p).
  { intros p. unfold Py.digits_value. rewrite NilEmpty.usu. unfold Z.of_uint.
    now rewrite DecimalPos.Unsigned.of_to. }
  assert (N : forall p, NilZero.string_of_uint (Pos.to_uint p)
                        = NilEmpty.string_of_uint (Pos.to_uint p)).
  { intros p. unfold NilZero.string_of_uint.
    pose proof (DecimalPos.Unsigned.to_uint_nonnil p).
    destruct (Pos.to_uint p); congruence. }
  destruct z as [|p|p].
  - exists "0". repeat split. discriminate.
  - exists (NilEmpty.string_of_uint (Pos.to_uint p)).
    split; [apply string_of_uint_digits|]. split.
    { apply string_of_uint_nonempty, DecimalPos.Unsigned.to_uint_nonnil. }
    split; [apply V|]. unfold Py.str_of_int. cbn [Z.to_int NilZero.string_of_int Z.ltb Z.compare].
    apply N.
  - exists (NilEmpty.string_of_uint (Pos.to_uint p)).
    split; [apply string_of_uint_digits|]. split.
    { apply string_of_uint_nonempty, DecimalPos.Unsigned.to_uint_nonnil. }
    split; [apply V|]. unfold Py.str_of_int. cbn [Z.to_int NilZero.string_of_int Z.ltb Z.compare].
    now rewrite N.
Qed.

Lemma str_of_int_chars (z : Z) : all_chars int_char (Py.str_of_int z) = true.
Proof.
  destruct (str_of_int_shape z) as [ds [D [_ [_ ->]]]].
  assert (A : all_chars int_char ds = true).
  { rewrite all_digits_all_chars in D. revert D. apply all_chars_impl.
    intros c H. unfold int_char. now rewrite H. }
  destruct (z <? 0); [cbn [all_chars]; now rewrite A|exact A].
Qed.

Lemma str_of_int_nonempty (z : Z) : Py.str_of_int z <> "".
Proof.
  destruct (str_of_int_shape z) as [ds [_ [N [_ ->]]]].
  destruct (z <? 0); [discriminate|exact N].
Qed.

Lemma rstrip_no_space (s : string) :
  all_chars (fun c => negb (Py.isspace c)) s = true -> Py.rstrip s = s.
Proof.
  induction s as [|c s IH]; [reflexivity|]. cbn [all_chars Py.rstrip].
  intros H. apply andb_true_iff in H. destruct H as [H1 H2].
  rewrite (IH H2). apply negb_true_iff in H1. rewrite H1. now destruct s.
Qed.

Lemma strip_no_space (s : string) :
  all_chars (fun c => negb (Py.isspace c)) s = true -> Py.strip s = s.
Proof.
  intros H. unfold Py.strip.
  assert (L : Py.lstrip s = s).
  { destruct s as [|c s]; [reflexivity|]. cbn [all_chars] in H.
    apply andb_true_iff in H. destruct H as [H1 _]. apply negb_true_iff in H1.
    cbn [Py.lstrip]. now rewrite H1. }
  rewrite L. now apply rstrip_no_space.
Qed.

Lemma drop_underscores_digits (s : string) :
  Py.all_digits s = true -> forall b, Py.drop_underscores b s = Some s.
Proof.
  induction s as [|c s IH]; [reflexivity|]. cbn [Py.all_digits Py.drop_underscores].
  intros H b. apply andb_true_iff in H. destruct H as [H1 H2].
  rewrite (digit_not_underscore c H1), (IH H2). reflexivity.
Qed.

(** [int(str(n)) = n] *)
Lemma int_of_str_of_int (z : Z) : Py.int_of_str (Py.str_of_int z) = Ok z.
Proof.
  unfold Py.int_of_str.
  rewrite strip_no_space.
  2:{ generalize (str_of_int_chars z). apply all_chars_impl.
      intros c H. now rewrite (int_char_not_space c H). }
  destruct (str_of_int_shape z) as [ds [D [N [V ->]]]].
  assert (E : String.eqb ds "" = false) by now apply String.eqb_neq.
  destruct (z <? 0) eqn:S.
  - cbn [Py.split_sign]. rewrite (drop_underscores_digits ds D), D, E. cbn [andb negb].
    rewrite V. apply Z.ltb_lt in S. f_equal. lia.
  - destruct ds as [|c ds']; [congruence|].
    pose proof D as D'. cbn [Py.all_digits] in D'. apply andb_true_iff in D'.
    rewrite (split_sign_digit c ds' (proj1 D')).
    rewrite (drop_underscores_digits _ D), D, E. cbn [andb negb].
    rewrite V. apply Z.ltb_ge in S. f_equal. lia.
Qed.

End IntText.

(* ===================================================================== *)
(** * Note names of any octave, and chords                                *)
(* ===================================================================== *)

(** What [note_name_to_midi] returns for pitch class [i] and [octave]:
    the note number when it is a MIDI note, the range error on [name]
    otherwise. *)
Definition midi_of (i octave : Z) (name : string) : result Z :=
  let m := (octave + 1) * 12 + i in
  if (0 <=? m) && (m <=? 127) then Ok m
  else Raise (ValueError ("Note " ++ name ++ " is out of MIDI range (0-127)")).

Section NoteNamesAnyOctave.

Import Midi.

Ltac by_cases_on c :=
  destruct c as [[] [] [] [] [] [] [] []]; vm_compute; intros; congruence.

Definition not_b (c : ascii) : bool := negb (Ascii.eqb c "b").

Lemma int_char_not_b (c : ascii) : int_char c = true -> not_b c = true.
Proof. by_cases_on c. Qed.

Lemma int_char_not_sharp (c : ascii) (s : string) :
  int_char c = true -> String.eqb (String c s) "#" = false.
Proof.
  intros H. cbn [String.eqb].
  replace (Ascii.eqb c "#") with false; [reflexivity|]. revert H. by_cases_on c.
Qed.

Lemma replace_no_b (s : string) :
  all_chars not_b s = true -> Py.replace "b" "" s = s.
Proof.
  unfold Py.replace. induction s as [|c s IH]; [reflexivity|].
  cbn [all_chars Py.replace_from String.prefix]. intros H.
  apply andb_true_iff in H. destruct H as [H1 H2].
  destruct (Ascii.ascii_dec "b" c) as [<-|N]; [discriminate H1|].
  now rewrite (IH H2).
Qed.

Lemma contains_no_b (s : string) :
  all_chars not_b s = true -> Py.contains "b" s = false.
Proof.
  induction s as [|c s IH]; [reflexivity|].
  cbn [all_chars Py.contains String.prefix]. intros H.
  apply andb_true_iff in H. destruct H as [H1 H2].
  destruct (Ascii.ascii_dec "b" c) as [<-|N]; [discriminate H1|].
  now rewrite (IH H2).
Qed.

Lemma index_from_in (x : string) (l : list string) :
  forall k i, Py.index_from x l k = Ok i -> In x l.
Proof.
  induction l as [|y l IH]; intros k i H; cbn [Py.index_from] in H; [discriminate|].
  destruct (String.eqb y x) eqn:E.
  - apply String.eqb_eq in E. now left.
  - right. now apply (IH (k + 1) i).
Qed.

Lemma space_upper (x : ascii) : Py.isspace x = true -> Py.upper_char x = x.
Proof. by_cases_on x. Qed.

(** A letter whose upper case is a note name is no white space. *)
Lemma root_letter_no_space (x : ascii) (rest : string) (i : Z) :
  Py.index (Py.upper (String x rest)) NOTE_NAMES = Ok i -> Py.isspace x = false.
Proof.
  intros H. destruct (Py.isspace x) eqn:E; [|reflexivity]. exfalso.
  apply index_from_in in H. unfold Py.upper in H. cbn [Py.map_str] in H.
  rewrite (space_upper x E) in H.
  unfold NOTE_NAMES in H. cbn [In] in H.
  repeat (destruct H as [H|H]; [injection H as <- _; discriminate E|]).
  exact H.
Qed.

Lemma len_cons2 (a b : ascii) (s : string) :
  (Py.len (String a (String b s)) <? 2) = false.
Proof. unfold Py.len. cbn [String.length]. apply Z.ltb_ge. lia. Qed.

(** The tail of [note_name_to_midi], once the note and the octave parts
    are known. *)
Lemma note_name_parts (name note_part : string) (i octave : Z) :
  Py.index (Py.upper note_part) NOTE_NAMES = Ok i ->
  match (note_idx <- Py.index (Py.upper note_part) NOTE_NAMES ;;
         oct <- Py.int_of_str (Py.str_of_int octave) ;;
         Ok (note_idx, oct)) with
  | Raise (ValueError _) | Raise (IndexError _) => invalid_note_name name
  | Raise e => Raise e
  | Ok (note_idx, oct) =>
      let midi_num := (oct + 1) * 12 + note_idx in
      if negb ((0 <=? midi_num) && (midi_num <=? 127))
      then Raise (ValueError ("Note " ++ name ++ " is out of MIDI range (0-127)"))
      else Ok midi_num
  end = midi_of i octave name.
Proof.
  intros H. rewrite H, int_of_str_of_int. cbn [bind]. unfold midi_of. cbv zeta.
  now destruct ((0 <=? (octave + 1) * 12 + i) && ((octave + 1) * 12 + i <=? 127)).
Qed.

(** A natural note name: a letter and the octave. *)
Lemma note_name_natural (x : ascii) (i octave : Z) :
  x <> "b"%char ->
  Py.index (Py.upper (String x "")) NOTE_NAMES = Ok i ->
  note_name_to_midi (String x (Py.str_of_int octave))
  = midi_of i octave (String x (Py.str_of_int octave)).
Proof.
  intros Nb Hi.
  pose proof (str_of_int_chars octave) as C.
  pose proof (str_of_int_nonempty octave) as Ne.
  assert (Xs : Py.isspace x = false) by exact (root_letter_no_space x "" i Hi).
  assert (Xb : not_b x = true).
  { unfold not_b. apply negb_true_iff, Ascii.eqb_neq. exact Nb. }
  assert (S : all_chars (fun c => negb (Py.isspace c)) (String x (Py.str_of_int octave)) = true).
  { cbn [all_chars]. rewrite Xs. cbn [negb andb]. revert C. apply all_chars_impl.
    intros c H. now rewrite (int_char_not_space c H). }
  assert (B : all_chars not_b (Py.str_of_int octave) = true).
  { revert C. apply all_chars_impl. exact int_char_not_b. }
  assert (B' : all_chars not_b (String x (Py.str_of_int octave)) = true).
  { cbn [all_chars]. now rewrite Xb, B. }
  unfold note_name_to_midi. cbv zeta.
  rewrite (strip_no_space _ S), (replace_no_b _ B').
  replace (if Py.contains "b" (String x (Py.str_of_int octave))
           then String x (Py.str_of_int octave)
           else String x (Py.str_of_int octave))
    with (String x (Py.str_of_int octave))
    by (now destruct (Py.contains "b" (String x (Py.str_of_int octave)))).
  destruct (Py.str_of_int octave) as [|c d] eqn:D; [congruence|].
  rewrite len_cons2.
  assert (Cc : int_char c = true).
  { cbn [all_chars] in C. apply andb_true_iff in C. apply C. }
  cbn [Py.drop Py.take]. rewrite (int_char_not_sharp c "" Cc).
  rewrite (contains_no_b _ B). cbn [bind].
  rewrite <- D. apply note_name_parts. exact Hi.
Qed.

(** A sharp note name: a letter, the sharp sign and the octave. *)
Lemma note_name_sharp (x : ascii) (i octave : Z) :
  x <> "b"%char ->
  Py.index (Py.upper (String x "#")) NOTE_NAMES = Ok i ->
  note_name_to_midi (String x (String "#" (Py.str_of_int octave)))
  = midi_of i octave (String x (String "#" (Py.str_of_int octave))).
Proof.
  intros Nb Hi.
  pose proof (str_of_int_chars octave) as C.
  assert (Xs : Py.isspace x = false) by exact (root_letter_no_space x "#" i Hi).
  assert (Xb : not_b x = true).
  { unfold not_b. apply negb_true_iff, Ascii.eqb_neq. exact Nb. }
  assert (S : all_chars (fun c => negb (Py.isspace c))
                (String x (String "#" (Py.str_of_int octave))) = true).
  { cbn [all_chars]. rewrite Xs. cbn [negb andb].
    replace (Py.isspace "#") with false by reflexivity. cbn [negb andb].
    revert C. apply all_chars_impl.
    intros c H. now rewrite (int_char_not_space c H). }
  assert (B : all_chars not_b (Py.str_of_int octave) = true).
  { revert C. apply all_chars_impl. exact int_char_not_b. }
  assert (B' : all_chars not_b (String x (String "#" (Py.str_of_int octave))) = true).
  { cbn [all_chars]. rewrite Xb, B. reflexivity. }
  unfold note_name_to_midi. cbv zeta.
  rewrite (strip_no_space _ S), (replace_no_b _ B').
  replace (if Py.contains "b" (String x (String "#" (Py.str_of_int octave)))
           then String x (String "#" (Py.str_of_int octave))
           else String x (String "#" (Py.str_of_int octave)))
    with (String x (String "#" (Py.str_of_int octave)))
    by (now destruct (Py.contains "b" (String x (String "#" (Py.str_of_int octave))))).
  rewrite len_cons2. cbn [Py.drop Py.take].
  replace (String.eqb "#" "#") with true by reflexivity.
  rewrite (contains_no_b _ B). cbn [bind].
  apply note_name_parts. exact Hi.
Qed.

(** The note-name formula, for every octave. A name made of a letter other
    than the lowercase b, an optional sharp sign and the decimal text of an
    integer octave, whose letter (with the sharp) in upper case is the
    [i]-th of [NOTE_NAMES], converts to [(octave + 1) * 12 + i] when that is
    within 0..127, and raises the out-of-range [ValueError] otherwise. *)
Theorem note_name_any_octave (x : ascii) (sharp : bool) (i octave : Z) :
  let root := String x (if sharp then "#" else "") in
  x <> "b"%char ->
  Py.index (Py.upper root) NOTE_NAMES = Ok i ->
  note_name_to_midi (root ++ Py.str_of_int octave)
  = midi_of i octave (root ++ Py.str_of_int octave).
Proof.
  intros root Nb Hi. subst root.
  destruct sharp; cbn [append]; [now apply note_name_sharp|now apply note_name_natural].
Qed.

Lemma note_name_any_octave_witness :
  Midi.note_name_to_midi ("g#" ++ Py.str_of_int (-1))
  = midi_of 8 (-1) ("g#" ++ Py.str_of_int (-1)).
Proof.
  apply (note_name_any_octave "g" true 8 (-1)).
  - discriminate.
  - vm_compute. reflexivity.
Defined.

End NoteNamesAnyOctave.


Section Chords.

Import Midi.

Lemma lookup_in {V : Type} (k : string) (v : V) (l : list (string * V)) :
  lookup k l = Some v -> In (k, v) l.
Proof.
  induction l as [|[k' v'] l IH]; cbn [lookup]; [discriminate|].
  destruct (String.eqb k' k) eqn:E.
  - apply String.eqb_eq in E. intros [= <-]. left. now subst.
  - intros H. right. now apply IH.
Qed.

Lemma midi_of_in_range (i octave : Z) (name : string) :
  0 <= (octave + 1) * 12 + i <= 127 ->
  midi_of i octave name = Ok ((octave + 1) * 12 + i).
Proof.
  intros H. unfold midi_of. cbv zeta.
  replace ((0 <=? (octave + 1) * 12 + i) && ((octave + 1) * 12 + i <=? 127)) with true;
    [reflexivity|].
  symmetry. apply andb_true_iff. split; apply Z.leb_le; lia.
Qed.

(** The pitches of a chord. For a root made of a letter other than the
    lowercase b and an optional sharp sign, and a quality of
    [CHORD_INTERVALS], [parse_chord] returns the root's note number at the
    given octave plus each interval of the quality -- provided the root is a
    MIDI note; the chord tones themselves are not range-checked. *)
Theorem parse_chord_pitches (x : ascii) (sharp : bool) (quality : string)
  (intervals : list Z) (i octave : Z) :
  let root := String x (if sharp then "#" else "") in
  x <> "b"%char ->
  Py.index (Py.upper root) NOTE_NAMES = Ok i ->
  lookup quality CHORD_INTERVALS = Some intervals ->
  0 <= (octave + 1) * 12 + i <= 127 ->
  parse_chord (root ++ quality) octave
  = Ok (map (fun interval => (octave + 1) * 12 + i + interval) intervals).
Proof.
  intros root Nb Hi Hq Hr.
  pose proof (note_name_any_octave x sharp i octave Nb Hi) as N.
  rewrite midi_of_in_range in N by exact Hr.
  assert (Xs : Py.isspace x = false)
    by exact (root_letter_no_space x _ i Hi).
  pose proof (lookup_in _ _ _ Hq) as I.
  unfold parse_chord. cbv zeta.
  assert (S : forall r, all_chars (fun c => negb (Py.isspace c)) r = true ->
                        Py.strip (String x r) = String x r).
  { intros r Hr'. apply strip_no_space. cbn [all_chars]. now rewrite Xs, Hr'. }
  subst root. unfold CHORD_INTERVALS in I. cbn [In] in I.
  repeat (destruct I as [I|I];
          [injection I as <- <-; destruct sharp; cbn [append];
           (rewrite S by reflexivity);
           match goal with
           | |- context [chord_parts (String x ?r)] =>
               match r with
               | String "#"%char ?q =>
                   replace (chord_parts (String x r)) with (Ok (String x "#", q))
                     by reflexivity
               | _ =>
                   replace (chord_parts (String x r)) with (Ok (String x "", r))
                     by reflexivity
               end
           end;
           cbn [bind append]; cbn [append] in N; rewrite N; reflexivity|]).
  destruct I.
Qed.

Lemma parse_chord_pitches_witness :
  Midi.parse_chord ("F#" ++ "m7") 3 =
  Ok (map (fun interval => (3 + 1) * 12 + 6 + interval) [0; 3; 7; 10]).
Proof.
  apply (parse_chord_pitches "F" true "m7" [0; 3; 7; 10] 6 3).
  - discriminate.
  - vm_compute. reflexivity.
  - reflexivity.
  - lia.
Defined.

Lemma lstrip_blank (s : string) : all_chars Py.isspace s = true -> Py.lstrip s = "".
Proof.
  induction s as [|c s IH]; [reflexivity|]. cbn [all_chars Py.lstrip].
  intros H. apply andb_true_iff in H. destruct H as [H1 H2]. now rewrite H1, IH.
Qed.

(** A blank chord name -- empty, or white space only -- makes [parse_chord]
    raise [IndexError] (from [chord_name[0]]), not a [ValueError]. *)
Theorem parse_chord_blank (chord_name : string) (octave : Z) :
  all_chars Py.isspace chord_name = true ->
  parse_chord chord_name octave = Raise (IndexError "string index out of range").
Proof.
  intros H. unfold parse_chord, Py.strip. rewrite (lstrip_blank _ H). reflexivity.
Qed.

Lemma parse_chord_blank_witness :
  Midi.parse_chord "  " 4 = Raise (IndexError "string index out of range").
Proof. apply (parse_chord_blank "  " 4). reflexivity. Defined.

End Chords.


Section ChordProgression.

Import Midi.

Lemma for_each_raise {A S : Type} (body : S -> A -> result S) (l : list A) (x : A) :
  In x l -> (forall acc, exists e, body acc x = Raise e) ->
  forall acc, exists e, for_each body l acc = Raise e.
Proof.
  intros Hin Hx. induction l as [|y l IH]; [destruct Hin|]. intros acc.
  cbn [for_each]. destruct (body acc y) as [acc'|e] eqn:E; cbn [bind].
  - destruct Hin as [->|Hin]; [|now apply IH].
    destruct (Hx acc) as [e' E']. congruence.
  - eauto.
Qed.

Lemma combine_in_right {A B : Type} (b : B) (la : list A) (lb : list B) :
  List.length la = List.length lb -> In b lb -> exists a, In (a, b) (combine la lb).
Proof.
  revert la. induction lb as [|y lb IH]; intros la L Hin; [destruct Hin|].
  destruct la as [|a la]; [discriminate L|]. injection L as L.
  destruct Hin as [->|Hin].
  - exists a. now left.
  - destruct (IH la L Hin) as [a' Ha]. exists a'. now right.
Qed.

Lemma enumerate_in {A : Type} (c : A) (l : list A) :
  In c l -> exists i, In (i, c) (enumerate l).
Proof.
  intros H. unfold enumerate. apply combine_in_right; [|exact H].
  now rewrite length_map, length_seq.
Qed.




(** If one chord of the progression does not parse, the call raises and no
    file is written, whatever the other chords are. *)
Theorem chord_progression_all_or_nothing (output_path : string) (chords : list string)
  (beats_per_chord : Py.number) (tempo_bpm velocity octave : Z) (c : string)
  (e : exception) (w : world) :
  In c chords -> parse_chord c octave = Raise e ->
  exists e',
    create_chord_progression output_path chords beats_per_chord tempo_bpm velocity octave w
    = (Raise e', w).
Proof.
  intros Hin Hc. destruct (enumerate_in c chords Hin) as [i Hi].
  destruct (for_each_raise (chord_item beats_per_chord velocity octave)
              (enumerate chords) (i, c) Hi) with (acc := @nil Note) as [e' E].
  { intros acc. exists e. unfold chord_item. now rewrite Hc. }
  exists e'. unfold create_chord_progression, io_bind, lift, chord_notes. now rewrite E.
Qed.

Lemma chord_progression_all_or_nothing_witness :
  exists e',
    Midi.create_chord_progression "out.mid" ["Dm7"; "Gx"; "Cmaj7"] (Py.PyFloat 4) 120 80 4
      {| files := []; entropy := fun _ => 0; drawn := 0 |}
    = (Raise e', {| files := []; entropy := fun _ => 0; drawn := 0 |}).
Proof.
  apply (chord_progression_all_or_nothing "out.mid" ["Dm7"; "Gx"; "Cmaj7"] (Py.PyFloat 4)
           120 80 4 "Gx" (ValueError "Unknown chord quality: x in Gx")).
  - right. left. reflexivity.
  - vm_compute. reflexivity.
Defined.





End ChordProgression.

(* ===================================================================== *)
(** * Tracks: adding, finding, placing items                              *)
(* ===================================================================== *)

(** Every track's [index] field is its position in the track list. *)
Definition indexed (l : list Rpp.Track) : Prop :=
  forall k t, nth_error l k = Some t -> Rpp.index t = Z.of_nat k.

Section Tracks.

Import Rpp.

Variable midi_length : string -> io Py.number.

Lemma indexed_app (l : list Track) (t : Track) :
  indexed l -> index t = Z.of_nat (List.length l) -> indexed (l ++ [t]).
Proof.
  intros I E k x N. destruct (Nat.lt_ge_cases k (List.length l)) as [Lt|Ge].
  - rewrite nth_error_app1 in N by exact Lt. now apply I.
  - rewrite nth_error_app2 in N by exact Ge.
    destruct (k - List.length l)%nat as [|j] eqn:D.
    + cbn in N. injection N as <-. rewrite E. f_equal. lia.
    + cbn in N. destruct j; discriminate N.
Qed.






(** [add_track] gives the new track the next free index, so a track list
    indexed by position stays so; nothing is written to a file. Together
    with the empty track list of a new project, every project built by
    [add_track] alone is indexed by position. *)
Theorem add_track_keeps_indexed (self : ReaperProject) (n : string) (w : world) :
  indexed (tracks self) ->
  exists self' t w',
    add_track self n w = (Ok (self', t), w') /\
    files w' = files w /\
    tracks self' = (tracks self ++ [t])%list /\
    name t = n /\ midi_items t = [] /\
    nth_error (tracks self') (Z.to_nat (index t)) = Some t /\
    indexed (tracks self').
Proof.
  intros I. unfold add_track, io_bind, Lib.uuid4, ret.
  eexists _, _, _. split; [reflexivity|]. cbn [tracks set_tracks name midi_items index].
  repeat split.
  - rewrite Nat2Z.id, nth_error_app2 by lia. now rewrite Nat.sub_diag.
  - now apply indexed_app.
Qed.

Lemma add_track_keeps_indexed_witness :
  let self :=
    {| project_path := None; tempo := Py.PyFloat 120; time_signature := (4, 4);
       sample_rate := 44100; render_file := "render";
       tracks := [ {| name := "Bass"; index := 0; guid := "a"; midi_items := [] |} ];
       _raw_lines := [] |} in
  let w := {| files := []; entropy := fun _ => 0; drawn := 0 |} in
  exists self' t w',
    Rpp.add_track self "Drums" w = (Ok (self', t), w') /\
    files w' = files w /\
    tracks self' = (tracks self ++ [t])%list /\
    name t = "Drums" /\ midi_items t = [] /\
    nth_error (tracks self') (Z.to_nat (index t)) = Some t /\
    indexed (tracks self').
Proof.
  intros self w. apply (add_track_keeps_indexed self "Drums" w).
  intros [|[|k]] t N; cbn in N; try discriminate N. now injection N as <-.
Defined.



(** A negative index beyond the first track passes the range check of
    [add_midi_item], and the length is resolved (the MIDI file is read when
    no length is given) before the track lookup raises Python's own
    [IndexError]; the project is not changed. *)
Theorem add_midi_item_below_range (self : ReaperProject) (track_index : Z)
  (midi_path : string) (pos : Py.number) (len_ : option Py.number) (w : world) :
  track_index < - Z.of_nat (List.length (tracks self)) ->
  match resolve_length midi_length midi_path len_ w with
  | (Raise e, w') =>
      add_midi_item midi_length self track_index midi_path pos len_ w = (Raise e, w')
  | (Ok _, w') =>
      add_midi_item midi_length self track_index midi_path pos len_ w
      = (Raise (IndexError "list index out of range"), w')
  end.
Proof.
  intros H. unfold add_midi_item, resolve_length.
  destruct (Z.of_nat (List.length (tracks self)) <=? track_index) eqn:C;
    [apply Z.leb_le in C; lia|].
  unfold io_bind.
  destruct (match len_ with None => midi_length midi_path | Some l => ret l end w)
    as [[l|e] w'] eqn:R; [|reflexivity].
  unfold lift, Py.getitem.
  destruct (track_index <? 0) eqn:E; [|apply Z.ltb_ge in E; lia].
  replace (0 <=? track_index + Z.of_nat (List.length (tracks self))) with false
    by (symmetry; apply Z.leb_gt; lia).
  reflexivity.
Qed.

End Tracks.


Lemma add_midi_item_below_range_witness :
  let self :=
    {| Rpp.project_path := None; Rpp.tempo := Py.PyFloat 120;
       Rpp.time_signature := (4, 4); Rpp.sample_rate := 44100;
       Rpp.render_file := "render";
       Rpp.tracks := [ {| Rpp.name := "Bass"; Rpp.index := 0; Rpp.guid := "a";
                          Rpp.midi_items := [] |} ];
       Rpp._raw_lines := [] |} in
  let w := {| files := []; entropy := fun _ => 0; drawn := 0 |} in
  let reader := fun _ : string => throw (A := Py.number) (FileNotFoundError "") in
  Rpp.add_midi_item reader self (-2) "drums.mid" (Py.PyFloat 0) (Some (Py.PyFloat 8)) w
  = (Raise (IndexError "list index out of range"), w).
Proof.
  intros self w reader.
  exact (add_midi_item_below_range reader self (-2) "drums.mid" (Py.PyFloat 0)
           (Some (Py.PyFloat 8)) w ltac:(cbn; lia)).
Defined.

(* ===================================================================== *)
(** * Text of a saved project                                             *)
(* ===================================================================== *)


Definition not_break (c : ascii) : bool := negb (line_break c).

Definition not_space (c : ascii) : bool := negb (Py.isspace c).


Ltac by_ascii c :=
  destruct c as [[] [] [] [] [] [] [] []]; vm_compute; intros; congruence.

Section Text.








Lemma not_space_not_break (c : ascii) : not_space c = true -> not_break c = true.
Proof. by_ascii c. Qed.











(** ** The text of a number *)












(** ** Identifiers and file names *)







End Text.

(* ===================================================================== *)
(** * Reading a saved project line by line                                *)
(* ===================================================================== *)





Section SavedLines.

Import Rpp.





















End SavedLines.

(* ===================================================================== *)
(** * Saving, then loading                                                *)
(* ===================================================================== *)












Section SaveLoad.

Import Rpp.










End SaveLoad.

Section RoundTrip.

Import Rpp.







End RoundTrip.


(* ===================================================================== *)
(** * Notes before time zero                                              *)
(* ===================================================================== *)

Section NegativeTime.

Import Midi.

(** The second loop does not look at the sign of a delta time: with valid
    data bytes it succeeds, and its first message carries the first tick. *)
Lemma delta_list_first (events : list event) (cur : Z) :
  Forall data_bytes events ->
  exists ms, delta_list cur events = Ok ms /\
    match events, ms with
    | e :: _, m :: _ => Mido.msg_time m = event_tick e - cur
    | [], [] => True
    | _, _ => False
    end.
Proof.
  revert cur. induction events as [|[[[t ty] p] v] events IH]; intros cur B.
  - exists []. split; [reflexivity|exact I].
  - inversion B as [|? ? [[P1 P2] [V1 V2]] B']; subst. cbn [fst snd] in *.
    destruct (IH t B') as [ms [E _]].
    cbn [delta_list]. unfold Mido.Message, Mido.data_byte.
    replace ((0 <=? p) && (p <=? 127)) with true
      by (symmetry; apply andb_true_iff; split; apply Z.leb_le; lia).
    replace ((0 <=? v) && (v <=? 127)) with true
      by (symmetry; apply andb_true_iff; split; apply Z.leb_le; lia).
    cbn [bind]. rewrite E. cbn [bind].
    eexists. split; [reflexivity|]. reflexivity.
Qed.

Lemma sorted_head_least (l : list event) (e0 e : event) (es : list event) :
  StronglySorted (fun a b => key_le (sort_key a) (sort_key b) = true) l ->
  l = e0 :: es -> In e l -> event_tick e0 <= event_tick e.
Proof.
  intros S -> [<-|H]; [lia|].
  inversion S as [|? ? _ F]; subst. rewrite Forall_forall in F.
  apply key_le_tick, F, H.
Qed.

(** Nothing in midi.py rejects a note that starts, or ends, before time
    zero. With valid data bytes such a note list is turned into a track
    whose first delta time is negative; writing that track fails after the
    file has been created and its header written, so the call raises and
    leaves a file that holds the header chunk only. *)
Theorem negative_tick_truncates_file (p : string) (notes : list Note) (bpm tpb tempo : Z)
  (sds : list (Z * Z)) (w : world) :
  Mido.bpm2tempo bpm = Ok tempo -> 0 <= tempo <= 16777215 ->
  -32768 <= tpb <= 32767 ->
  Forall2 (ticks_computed tpb) notes sds ->
  Forall (fun n => 0 <= pitch n <= 127 /\ 0 <= velocity n <= 127) notes ->
  Exists (fun sd => fst sd < 0 \/ fst sd + snd sd < 0) sds ->
  exists w',
    create_midi_file p notes bpm tpb w
    = (Raise (ValueError "message time must be non-negative in MIDI file"), w') /\
    read_file w' p = Some (MidiData [Header 1 1 tpb]).
Proof.
  intros Ht Hr Htpb F Hbytes Hneg.
  pose proof (note_events_complete notes tpb sds F) as Ev.
  set (events := all_events notes sds) in *.
  assert (B : Forall data_bytes events).
  { apply all_events_forall. intros n sd I.
    assert (I1 : In n notes) by (eapply in_combine_l; exact I).
    rewrite Forall_forall in Hbytes. specialize (Hbytes n I1).
    unfold events_of, data_bytes. repeat constructor; cbn [fst snd]; lia. }
  assert (N : exists e, In e events /\ event_tick e < 0).
  { apply Exists_exists in Hneg. destruct Hneg as [sd [Isd Hsd]].
    destruct (combine_in_right sd notes sds (Forall2_length F) Isd) as [n I].
    assert (Sub : forall e, In e (events_of n sd) -> In e events).
    { intros e He. unfold events, all_events. apply in_concat.
      exists (events_of n sd). split; [|exact He].
      apply in_map_iff. exists (n, sd). split; [reflexivity|exact I]. }
    destruct Hsd as [Hs|Hs].
    - exists (fst sd, "note_on", pitch n, velocity n). split; [apply Sub; cbn; auto|exact Hs].
    - exists (fst sd + snd sd, "note_off", pitch n, 0). split; [apply Sub; cbn; auto|exact Hs]. }
  destruct N as [e [Ie Te]].
  pose proof (sort_by_perm key_le sort_key events) as Pm.
  pose proof (sort_by_sorted key_le sort_key key_le_total key_le_trans events) as So.
  assert (Is : In e (sort_by key_le sort_key events))
    by (eapply Permutation_in; [apply Permutation_sym, Pm|exact Ie]).
  destruct (delta_list_first (sort_by key_le sort_key events) 0
              (Permutation_Forall (Permutation_sym Pm) B)) as [ms [D Hd]].
  destruct (sort_by key_le sort_key events) as [|e0 es] eqn:Sd; [destruct Is|].
  destruct ms as [|m ms]; [destruct Hd|].
  pose proof (sorted_head_least _ e0 e es So eq_refl Is) as Le.
  assert (Bt : build_track notes bpm tpb
               = Ok (SetTempo tempo 0 :: (m :: ms) ++ [EndOfTrack 0])%list).
  { unfold build_track. rewrite Ht. cbn [bind]. unfold Mido.MetaMessage_set_tempo.
    replace ((0 <=? tempo) && (tempo <=? 16777215)) with true
      by (symmetry; apply andb_true_iff; split; apply Z.leb_le; lia).
    cbn [bind]. rewrite Ev. cbn [bind]. unfold delta_messages.
    rewrite delta_messages_from. fold events. rewrite Sd, D. reflexivity. }
  unfold create_midi_file, io_bind, lift. rewrite Bt.
  unfold Mido.save, io_bind. cbn [Mido.tracks Mido.ticks_per_beat List.length].
  replace (Mido.int16 (Z.of_nat 1) && Mido.int16 tpb) with true.
  2:{ symmetry. unfold Mido.int16. apply andb_true_iff.
      split; [reflexivity|]. apply andb_true_iff. split; apply Z.leb_le; lia. }
  cbn [io_for_each]. unfold io_bind, Mido.write_track.
  cbn [forallb Mido.msg_time app].
  replace (0 <=? Mido.msg_time m) with false by (symmetry; apply Z.leb_gt; lia).
  cbn [andb Z.leb Z.compare]. unfold throw.
  eexists. split; [reflexivity|]. apply read_write_file.
Qed.

End NegativeTime.

Lemma negative_tick_truncates_file_witness :
  let notes :=
    [ {| Midi.pitch := 60; Midi.start_beat := Py.PyInt (-1);
         Midi.duration_beats := Py.PyInt 2; Midi.velocity := 100 |} ] in
  let w := {| files := []; entropy := fun _ => 0; drawn := 0 |} in
  exists w',
    Midi.create_midi_file "out.mid" notes 120 480 w
    = (Raise (ValueError "message time must be non-negative in MIDI file"), w') /\
    read_file w' "out.mid" = Some (MidiData [Header 1 1 480]).
Proof.
  intros notes w.
  apply (negative_tick_truncates_file "out.mid" notes 120 480 500000 [(-480, 960)] w).
  - vm_compute. reflexivity.
  - lia.
  - lia.
  - repeat constructor; vm_compute; reflexivity.
  - repeat constructor; cbn; lia.
  - constructor. left. cbn. lia.
Defined.

(* ===================================================================== *)
(** * A directive with a value that is not a number                       *)
(* ===================================================================== *)

Section MalformedDirective.

Import Rpp.

(** Loading is all or nothing: a [TEMPO] line whose value [float] rejects,
    or a [SAMPLERATE] line whose value [int] rejects, makes [load] raise,
    wherever in the file the line stands; no project is returned and no
    default is used for that field. *)
Theorem malformed_number_fails (p s l v : string) (e : exception) (w : world) :
  read_file w p = Some (TextFile s) ->
  In l (Lib.lines_of (Lib.universal_newlines s)) ->
  directive_value l = Some v ->
  (tempo_directive l = true /\ Py.float_of_str v = Raise e) \/
  (samplerate_directive l = true /\ Py.int_of_str v = Raise e) ->
  exists e', load p w = (Raise e', w).
Proof.
  intros R I V H.
  destruct (for_each_raise load_metadata_line _ l I) with
    (acc := set_raw_lines
              (set_path
                 {| project_path := Some p; tempo := Py.PyFloat 120;
                    time_signature := (4, 4); sample_rate := 44100;
                    render_file := "render"; tracks := []; _raw_lines := [] |}
                 (Some p)) (Lib.lines_of (Lib.universal_newlines s))) as [e' E].
  { intros acc. exists e. rewrite load_metadata_line_cases, V.
    destruct H as [[T F]|[S F]].
    - now rewrite T, F.
    - destruct (tempo_directive l) eqn:T.
      + destruct (directives_disjoint l) as [D _]. destruct (D T) as [D1 _]. congruence.
      + now rewrite S, F. }
  exists e'. unfold load, __init__, io_bind, Lib.exists_. rewrite R.
  unfold _load, io_bind, Lib.readlines. rewrite R. unfold lift. now rewrite E.
Qed.

End MalformedDirective.

Lemma malformed_number_fails_witness :
  let s := "<REAPER_PROJECT" ++ nl ++ "  SAMPLERATE 44.1k 0 0" ++ nl ++ ">" ++ nl in
  let w := {| files := [("song.rpp", TextFile s)]; entropy := fun _ => 0; drawn := 0 |} in
  exists e', Rpp.load "song.rpp" w = (Raise e', w).
Proof.
  intros s w.
  apply (malformed_number_fails "song.rpp" s ("  SAMPLERATE 44.1k 0 0" ++ nl) "44.1k"
           (ValueError "invalid literal for int() with base 10: '44.1k'") w).
  - reflexivity.
  - vm_compute. right. left. reflexivity.
  - vm_compute. reflexivity.
  - right. split; vm_compute; reflexivity.
Defined.

(* ===================================================================== *)
(** * Opening a project and saving it                                     *)
(* ===================================================================== *)

Definition no_items (t : Rpp.Track) : Prop := Rpp.midi_items t = [].

(** No track read so far, and not the one being read, owns an item. *)
Definition scan_without_items (st : Rpp.scan) : Prop :=
  Forall no_items (Rpp.scanned st) /\
  forall t, Rpp.current_track st = Some t -> no_items t.

Section Reopen.

Import Rpp.

Lemma load_track_line_no_items (st st' : scan) (l : string) (w w' : world) :
  load_track_line st l w = (Ok st', w') ->
  scan_without_items st -> scan_without_items st'.
Proof.
  unfold load_track_line, scan_without_items. cbv zeta.
  destruct (Py.startswith "<TRACK" (Py.strip l)).
  - unfold io_bind. destruct (Lib.search_braced (Py.strip l)); unfold ret, Lib.uuid4;
      intros [= <- <-] [F C]; (split; [exact F|]); cbn [current_track];
      intros t [= <-]; reflexivity.
  - destruct (in_track st && Py.startswith "NAME " (Py.strip l)).
    + destruct (Lib.search_quoted (Py.strip l)) as [g|];
        destruct (current_track st) as [t0|] eqn:Cu; unfold ret;
        intros [= <- <-] [F C]; try (split; [exact F|rewrite Cu; exact C]).
      split; [exact F|]. cbn [current_track]. intros t [= <-].
      unfold no_items, set_name. cbn [midi_items]. now apply C.
    + destruct (in_track st && String.eqb (Py.strip l) ">"); unfold ret;
        intros [= <- <-] [F C]; [|now split].
      split; [|discriminate]. cbn [scanned].
      destruct (current_track st) as [t0|]; [|exact F].
      apply Forall_app. split; [exact F|]. constructor; [now apply C|constructor].
Qed.

Lemma scan_no_items (lines : list string) :
  forall st st' w w',
    io_for_each load_track_line lines st w = (Ok st', w') ->
    scan_without_items st -> scan_without_items st'.
Proof.
  induction lines as [|l lines IH]; intros st st' w w'; cbn [io_for_each].
  - unfold ret. now intros [= <- <-].
  - unfold io_bind at 1. destruct (load_track_line st l w) as [[st1|e] w1] eqn:E;
      [|discriminate].
    intros H I. eapply IH; [exact H|]. eapply load_track_line_no_items; eassumption.
Qed.

Lemma load_metadata_line_path (self self' : ReaperProject) (l : string) :
  load_metadata_line self l = Ok self' -> project_path self' = project_path self.
Proof.
  rewrite load_metadata_line_cases.
  destruct (tempo_directive l).
  - destruct (directive_value l) as [v|]; [|now intros [= <-]].
    destruct (Py.float_of_str v); cbn [bind]; [now intros [= <-]|discriminate].
  - destruct (samplerate_directive l).
    + destruct (directive_value l) as [v|]; [|now intros [= <-]].
      destruct (Py.int_of_str v); cbn [bind]; [now intros [= <-]|discriminate].
    + destruct (render_file_directive l); [|now intros [= <-]].
      destruct (Lib.search_quoted (Py.strip l)); now intros [= <-].
Qed.

Lemma load_metadata_path (lines : list string) :
  forall self self',
    for_each load_metadata_line lines self = Ok self' ->
    project_path self' = project_path self.
Proof.
  induction lines as [|l lines IH]; intros self self'; cbn [for_each].
  - now intros [= <-].
  - destruct (load_metadata_line self l) as [s1|e] eqn:E; cbn [bind]; [|discriminate].
    intros H. rewrite (IH _ _ H). now apply load_metadata_line_path in E.
Qed.

(** [load] never reads an item: every track of a loaded project has an
    empty item list, whatever the file holds. So a project that is opened
    and saved again is written as its head and its track heads alone: the
    item blocks and FX chains the file held are not in the new file. *)
Theorem reopen_and_save_drops_items (p : string) (w w1 : world) (proj : ReaperProject) :
  load p w = (Ok proj, w1) ->
  Forall no_items (tracks proj) /\
  project_path proj = Some p /\
  save proj None w1
  = (Ok (set_path proj (Some p)),
     write_file w1 p (TextFile (String.concat "" (plain_text proj)))).
Proof.
  intros L.
  assert (A : Forall no_items (tracks proj) /\ project_path proj = Some p).
  { unfold load, __init__, io_bind, Lib.exists_ in L.
    destruct (read_file w p) as [f|].
    - unfold _load, io_bind in L.
      destruct (Lib.readlines p w) as [[lines|e] w0]; [|discriminate L].
      unfold lift in L.
      destruct (for_each load_metadata_line lines _) as [self'|e] eqn:M; [|discriminate L].
      destruct (io_for_each load_track_line lines _ w0) as [[st|e] w2] eqn:T;
        [|discriminate L].
      unfold ret in L. injection L as <- <-. cbn [tracks set_tracks project_path].
      split.
      + apply (scan_no_items _ _ _ _ _ T). split; [constructor|discriminate].
      + now rewrite (load_metadata_path _ _ _ M).
    - unfold ret in L. injection L as <- <-. split; [constructor|reflexivity]. }
  destruct A as [F P]. split; [exact F|]. split; [exact P|].
  unfold save. rewrite P. unfold _rebuild_content, _generate_new_project, io_bind.
  rewrite (extend_tracks_plain _ F). unfold ret, Lib.writelines.
  unfold plain_text. now rewrite List.app_assoc.
Qed.

End Reopen.

(** Opening and saving a file that holds a track with an item. *)
Lemma reopen_and_save_drops_items_witness :
  let s := "<REAPER_PROJECT" ++ nl ++ "  <TRACK {g1}" ++ nl
           ++ "    NAME " ++ q ++ "Drums" ++ q ++ nl
           ++ "    <ITEM" ++ nl ++ "      POSITION 0" ++ nl ++ "    >" ++ nl
           ++ "  >" ++ nl ++ ">" ++ nl in
  let w := {| files := [("song.rpp", TextFile s)]; entropy := fun _ => 0; drawn := 0 |} in
  let proj :=
    {| Rpp.project_path := Some "song.rpp"; Rpp.tempo := Py.PyFloat 120;
       Rpp.time_signature := (4, 4); Rpp.sample_rate := 44100;
       Rpp.render_file := "render";
       Rpp.tracks := [ {| Rpp.name := "Drums"; Rpp.index := 0; Rpp.guid := "g1";
                          Rpp.midi_items := [] |} ];
       Rpp._raw_lines := Lib.lines_of (Lib.universal_newlines s) |} in
  Forall no_items (Rpp.tracks proj) /\
  Rpp.project_path proj = Some "song.rpp" /\
  Rpp.save proj None w
  = (Ok (Rpp.set_path proj (Some "song.rpp")),
     write_file w "song.rpp" (TextFile (String.concat "" (plain_text proj)))).
Proof.
  intros s w proj.
  apply (reopen_and_save_drops_items "song.rpp" w w proj).
  vm_compute. reflexivity.
Defined.
